(** * Splice-compatibility predictors of [spliced]: a shallow embedding

    The three predictors of [spliced.predict] are embedded module by module:
    [Symbols] (symbols.py), [Libabigail] (libabigail.py) and [Smeagle]
    (smeagle/__init__.py).  Python dictionaries whose iteration order is
    observable are association lists in insertion order ([PyDict]); the
    metadata store, which is only looked up, is a [gmap].  Exceptions and the
    effects of external tools are explicit: every method is a function of an
    abstract world and returns either an exception or a value and the next
    world.  What the methods log or print is left out. *)

From stdpp Require Import gmap strings list fin_maps.
From Stdlib Require Import ZArith Ascii.


(** ** Exceptions and the monad of effectful methods *)

Inductive exn :=
| KeyError (k : string)
| NotImplementedError
| OSError (path : string).

Definition M (W A : Type) : Type := W → exn + (A * W).

Global Instance M_ret {W} : MRet (M W) := λ A a w, inr (a, w).
Global Instance M_bind {W} : MBind (M W) := λ A B f m w,
  match m w with
  | inl e => inl e
  | inr (a, w') => f a w'
  end.

Definition raise {W A} (e : exn) : M W A := λ _, inl e.

(** [for x in l: acc = body(acc, x)] *)
Fixpoint for_each {W A B} (body : B → A → M W B) (l : list A) (acc : B) : M W B :=
  match l with
  | [] => mret acc
  | x :: l' => acc' ← body acc x; for_each body l' acc'
  end.

(** The outcome of a computation that appends to an empty list, read as the
    outcome of the same computation appending to [acc]. *)
Definition appended_to {W A} (acc : list A) (r : exn + (list A * W))
    : exn + (list A * W) :=
  match r with
  | inl e => inl e
  | inr (new, w) => inr (acc ++ new, w)
  end.

(** ** Strings *)

Definition newline : string := String "010"%char EmptyString.

(** [sep.join(l)] *)
Definition join (sep : string) (l : list string) : string := String.concat sep l.

(** [needle in haystack] on strings *)
Fixpoint str_contains (needle haystack : string) : bool :=
  String.prefix needle haystack ||
  match haystack with
  | EmptyString => false
  | String _ rest => str_contains needle rest
  end.

(** [os.path.basename(p)]: what follows the last separator. *)
Fixpoint basename_from (acc p : string) : string :=
  match p with
  | EmptyString => acc
  | String c rest =>
      if Ascii.eqb c "/" then basename_from "" rest
      else basename_from (acc +:+ String c "") rest
  end.

Definition basename (p : string) : string := basename_from "" p.

(** [s.split(".")[0]]: what precedes the first dot. *)
Fixpoint before_dot (s : string) : string :=
  match s with
  | EmptyString => ""
  | String c rest => if Ascii.eqb c "." then "" else String c (before_dot rest)
  end.

(** [s.lstrip("/")], [s.rstrip("/")] and [s.strip(os.sep)] *)
Fixpoint lstrip_sep (s : string) : string :=
  match s with
  | String c rest => if Ascii.eqb c "/" then lstrip_sep rest else s
  | EmptyString => ""
  end.

Fixpoint rstrip_sep (s : string) : string :=
  match s with
  | EmptyString => ""
  | String c rest =>
      let rest' := rstrip_sep rest in
      if Ascii.eqb c "/" && String.eqb rest' "" then "" else String c rest'
  end.

Definition strip_sep (s : string) : string := rstrip_sep (lstrip_sep s).

(** [s.endswith("/")] *)
Fixpoint ends_with_sep (s : string) : bool :=
  match s with
  | EmptyString => false
  | String c EmptyString => Ascii.eqb c "/"
  | String _ rest => ends_with_sep rest
  end.

(** [os.path.join(a, b)] on POSIX *)
Definition path_join (a b : string) : string :=
  if String.prefix "/" b then b
  else if String.eqb a "" || ends_with_sep a then a +:+ b
  else a +:+ "/" +:+ b.

(** The head of [os.path.split]: the prefix up to the last separator. *)
Fixpoint split_head (head cur p : string) : string :=
  match p with
  | EmptyString => head
  | String c rest =>
      let cur' := cur +:+ String c "" in
      if Ascii.eqb c "/" then split_head cur' cur' rest
      else split_head head cur' rest
  end.

(** [os.path.dirname(p)] on POSIX *)
Definition dirname (p : string) : string :=
  let head := split_head "" "" p in
  if String.eqb (rstrip_sep head) "" then head else rstrip_sep head.

(** [s.replace(".json", ".asp")]: every occurrence, left to right; [skip]
    counts the characters of a match still to be dropped. *)
Fixpoint replace_json_from (skip : nat) (s : string) : string :=
  match s with
  | EmptyString => ""
  | String c rest =>
      match skip with
      | S k => replace_json_from k rest
      | O =>
          if String.prefix ".json" s then ".asp" +:+ replace_json_from 4 rest
          else String c (replace_json_from 0 rest)
      end
  end.

Definition replace_json (s : string) : string := replace_json_from 0 s.

(** [p.split("/")]: the components of a path. *)
Fixpoint components_from (cur p : string) : list string :=
  match p with
  | EmptyString => [cur]
  | String c rest =>
      if Ascii.eqb c "/" then cur :: components_from "" rest
      else components_from (cur +:+ String c "") rest
  end.

Definition components (p : string) : list string := components_from "" p.

(** What is left of [s] after its prefix [pre], if [pre] is one. *)
Fixpoint drop_prefix (pre s : string) : option string :=
  match pre with
  | EmptyString => Some s
  | String a pre' =>
      match s with
      | EmptyString => None
      | String b s' => if Ascii.eqb a b then drop_prefix pre' s' else None
      end
  end.

(** A path written in one way only: no [.] or [..] component, and no empty
    one after the first (no doubled or trailing separator). *)
Definition canonical (p : string) : bool :=
  forallb (λ c, negb (String.eqb c "." || String.eqb c "..")) (components p)
  && forallb (λ c, negb (String.eqb c "")) (tail (components p)).

(** ** Dictionaries in insertion order *)

Module PyDict.

(** [d.get(k)]: the value at [k], if any. *)
Fixpoint get {V} (d : list (string * V)) (k : string) : option V :=
  match d with
  | [] => None
  | (k', v) :: d' => if decide (k' = k) then Some v else get d' k
  end.

(** [d[k] = v]: overwrite in place, or append a new key at the end. *)
Fixpoint set {V} (d : list (string * V)) (k : string) (v : V) : list (string * V) :=
  match d with
  | [] => [(k, v)]
  | (k', v') :: d' =>
      if decide (k' = k) then (k', v) :: d' else (k', v') :: set d' k v
  end.

End PyDict.

(** ** The abstract types of the environment

    [World] is the state of everything outside the interpreter (clock,
    external tools); [Time] is what [time()] returns; [ExportInfo] is the
    value stored for an exported symbol, which no predictor inspects; [Deps]
    is the ["deps"] entry of a dependency lookup, which only
    [match_by_prefix] reads; [Facts] is the structured output of the fact
    extractor and [CompareResult] the dictionary returned by the structural
    comparator. *)

Class Types := {
  World : Type;
  Time : Type;
  ExportInfo : Type;
  Deps : Type;
  Facts : Type;
  CompareResult : Type;
}.

(** ** Symbol maps: the per-binary output of the loader walk *)

(** [x["lib"]]: the library that resolves a symbol. *)
Record LibInfo := { realpath : string }.

(** One entry of a [found] map; the ["lib"] key may be absent. *)
Record FoundMeta := { lib : option LibInfo }.

Record SymbolMap `{Types} := {
  found : list (string * FoundMeta);
  missing : list string;
  exported : list (string * ExportInfo);
}.

(** * symbols.py *)

Module Symbols.

Inductive message_t :=
| MsgStr (s : string)
| MsgList (l : list string).

(** A prediction dictionary.  Keys a function does not write are [None]. *)
Record PredictionRecord `{Types} := {
  binary : string;
  splice_type : string;
  original_lib : option string;
  spliced_lib : option string;
  command : string;
  message : message_t;
  prediction : bool;
  seconds : option Time;
}.

Definition set_seconds `{Types} (t : option Time) (r : PredictionRecord) : PredictionRecord :=
  {| binary := binary r; splice_type := splice_type r;
     original_lib := original_lib r; spliced_lib := spliced_lib r;
     command := command r; message := message r;
     prediction := prediction r; seconds := t |}.

(** One entry of the lookup built by [create_elfcall_deps_lookup]. *)
Record DepMeta `{Types} := {
  meta_lib : string;
  meta_deps : Deps;
}.

(** An element of the list returned by [match_by_prefix]. *)
Record Match := {
  original : string;
  spliced : string;
}.

(** The attributes of the splice that the predictor reads and writes. *)
Record Splice `{Types} := {
  different_libs : bool;
  splice_original : list string;
  splice_spliced : list string;
  metadata : gmap string SymbolMap;
  predictions : gmap string (list PredictionRecord);
}.

Definition set_predictions `{Types} (p : gmap string (list PredictionRecord))
    (s : Splice) : Splice :=
  {| different_libs := different_libs s;
     splice_original := splice_original s;
     splice_spliced := splice_spliced s;
     metadata := metadata s;
     predictions := p |}.

(** What symbols.py imports from [.base], which is not among the sources:
    [get_prefix], [match_by_prefix], the method
    [Prediction.create_elfcall_deps_lookup] and [time_run_decorator].  The
    decorator is given the dictionary its wrapped function returns and may
    read the clock. *)
Class Base `{Types} := {
  get_prefix : string → string;
  match_by_prefix : Deps → Deps → list Match;
  create_elfcall_deps_lookup : Splice → list string → list (string * DepMeta);
  time_run_decorator : PredictionRecord → M World PredictionRecord;
}.

(** The decorator returns the dictionary of the wrapped function, with at
    most the ["seconds"] key changed. *)
Class TimeRunFrame `{Base} : Prop :=
  time_run_frame : ∀ r w, ∃ t w', time_run_decorator r w = inr (set_seconds t r, w').

(** [splice.metadata[key]] *)
Definition metadata_get `{Types} (s : Splice) (key : string) : M World SymbolMap :=
  match metadata s !! key with
  | Some m => mret m
  | None => raise (KeyError key)
  end.

(** [compress_symbol_set], lines 209-218 *)
Definition compress_symbol_set `{Base} (symbols : list (string * FoundMeta))
    : list (string * string) :=
  foldl (λ compressed '(symbol, m),
           match lib m with
           | None => compressed
           | Some l => PyDict.set compressed symbol (get_prefix (realpath l))
           end) [] symbols.

(** The lines appended to [changed] for one item of the original lookup,
    lines 190-197.  The first literal is not an f-string in the source. *)
Definition changed_lines (spliced_symbols : list (string * string))
    (item : string * string) : list string :=
  let '(symbol, prefix) := item in
  match PyDict.get spliced_symbols symbol with
  | None => ["symbol {symbol} is missing in splice"]
  | Some after =>
      if decide (after ≠ prefix)
      then ["symbol " +:+ symbol +:+ " was originally provided by " +:+ prefix
              +:+ ", after splice is provided by " +:+ after]
      else []
  end.

(** The body of [check_symbol_provisioner_change], before the decorator. *)
Definition check_symbol_provisioner_change_body `{Base} (splice : Splice)
    (meta spliced_meta : DepMeta) : M World PredictionRecord :=
  let binary_fullpath := meta_lib meta in
  let spliced_fullpath := meta_lib spliced_meta in
  binary_symbols ← metadata_get splice binary_fullpath;
  spliced_symbols ← metadata_get splice spliced_fullpath;
  let original_symbols := compress_symbol_set (found binary_symbols) in
  let spliced_symbols := compress_symbol_set (found spliced_symbols) in
  let changed := original_symbols ≫= changed_lines spliced_symbols in
  mret {| binary := binary_fullpath;
          splice_type := "same_lib";
          original_lib := None;
          spliced_lib := None;
          command := "binary-checks-symbol-provisioner-change";
          message := MsgStr ("Symbol provider changes: " +:+ join newline changed);
          prediction := bool_decide (changed = []);
          seconds := None |}.

(** [check_symbol_provisioner_change], lines 170-206 *)
Definition check_symbol_provisioner_change `{Base} (splice : Splice)
    (meta spliced_meta : DepMeta) : M World PredictionRecord :=
  r ← check_symbol_provisioner_change_body splice meta spliced_meta;
  time_run_decorator r.

(** ["lib" in x and x["lib"]["realpath"] == path] *)
Definition resolved_in (path : string) (x : FoundMeta) : bool :=
  match lib x with
  | Some l => bool_decide (realpath l = path)
  | None => false
  end.

(** [[s for s, x in symbols.items()
      if "lib" in x and x["lib"]["realpath"] == path]] *)
Definition resolved_by (path : string) (symbols : list (string * FoundMeta))
    : list string :=
  (filter (λ sx, resolved_in path sx.2) symbols).*1.

(** [[x for x in before if x not in after]] *)
Definition not_in_after (before after : list string) : list string :=
  filter (λ x, x ∉ after) before.

(** The body of [missing_previously_found_symbols], before the decorator. *)
Definition missing_previously_found_symbols_body `{Types} (binary : string)
    (original_symbols spliced_symbols : SymbolMap) (match_ : Match)
    : PredictionRecord :=
  let before := resolved_by (original match_) (found original_symbols) in
  let after := resolved_by (spliced match_) (found spliced_symbols) in
  let missing_symbols := not_in_after before after in
  {| binary := binary;
     splice_type := "same_lib";
     original_lib := Some (original match_);
     spliced_lib := Some (spliced match_);
     command := "missing-previously-found-symbols";
     message := MsgList missing_symbols;
     prediction := bool_decide (missing_symbols = []);
     seconds := None |}.

(** [missing_previously_found_symbols], lines 138-167 *)
Definition missing_previously_found_symbols `{Base} (binary : string)
    (original_symbols spliced_symbols : SymbolMap) (match_ : Match)
    : M World PredictionRecord :=
  time_run_decorator
    (missing_previously_found_symbols_body binary original_symbols
       spliced_symbols match_).

(** The body of [missing_previously_found_exports], before the decorator. *)
Definition missing_previously_found_exports_body `{Types} (binary : string)
    (match_ : Match) (original_symbols spliced_symbols : SymbolMap)
    : PredictionRecord :=
  let before := (exported original_symbols).*1 in
  let after := (exported spliced_symbols).*1 in
  let missing_symbols := not_in_after before after in
  {| binary := binary;
     splice_type := "same_lib";
     original_lib := Some (original match_);
     spliced_lib := Some (spliced match_);
     command := "missing-previously-found-exports";
     message := MsgList missing_symbols;
     prediction := bool_decide (missing_symbols = []);
     seconds := None |}.

(** [missing_previously_found_exports], lines 114-135 *)
Definition missing_previously_found_exports `{Base} (binary : string)
    (match_ : Match) (original_symbols spliced_symbols : SymbolMap)
    : M World PredictionRecord :=
  time_run_decorator
    (missing_previously_found_exports_body binary match_ original_symbols
       spliced_symbols).

(** The record of case 1, lines 54-61 *)
Definition loader_missing_record `{Types} (binary_fullpath : string)
    (binary_symbols : SymbolMap) : PredictionRecord :=
  {| binary := binary_fullpath;
     splice_type := "same_lib";
     original_lib := None;
     spliced_lib := None;
     command := "binary-checks-loader-missing-symbols-for-original";
     message := MsgStr ("Loader found missing symbols for original binary: "
                          +:+ join newline (missing binary_symbols));
     prediction := false;
     seconds := None |}.

(** The body of [for match in matches], lines 82-108: [predictions] goes in
    and comes out extended. *)
Definition match_body `{Base} (splice : Splice) (binary_fullpath : string)
    (binary_symbols spliced_symbols : SymbolMap)
    (predictions : list PredictionRecord) (match_ : Match)
    : M World (list PredictionRecord) :=
  r ← missing_previously_found_symbols binary_fullpath binary_symbols
        spliced_symbols match_;
  let predictions := predictions ++ [r] in
  let original_key := "original:" +:+ original match_ in
  let spliced_key := "spliced:" +:+ spliced match_ in
  if bool_decide (metadata splice !! original_key = None
                  ∨ metadata splice !! spliced_key = None)
  then mret predictions
  else
    original_exports ← metadata_get splice original_key;
    spliced_exports ← metadata_get splice spliced_key;
    r' ← missing_previously_found_exports binary_fullpath match_
           original_exports spliced_exports;
    mret (predictions ++ [r']).

(** The body of [for binary, meta in original_deps.items()], lines 38-108 *)
Definition binary_body `{Base} (splice : Splice)
    (spliced_deps : list (string * DepMeta))
    (predictions : list PredictionRecord) (item : string * DepMeta)
    : M World (list PredictionRecord) :=
  let '(binary, meta) := item in
  match PyDict.get spliced_deps binary with
  | None => mret predictions
  | Some spliced_meta =>
      let binary_fullpath := meta_lib meta in
      binary_symbols ← metadata_get splice binary_fullpath;
      if bool_decide (missing binary_symbols ≠ [])
      then mret (predictions ++ [loader_missing_record binary_fullpath binary_symbols])
      else
        let spliced_fullpath := meta_lib spliced_meta in
        spliced_symbols ← metadata_get splice spliced_fullpath;
        r ← check_symbol_provisioner_change splice meta spliced_meta;
        let predictions := predictions ++ [r] in
        let matches := match_by_prefix (meta_deps meta) (meta_deps spliced_meta) in
        for_each (match_body splice binary_fullpath binary_symbols spliced_symbols)
          matches predictions
  end.

(** [SymbolsPrediction.splice_equivalent_libs], lines 25-111 *)
Definition splice_equivalent_libs `{Base} (splice : Splice) : M World Splice :=
  let original_deps := create_elfcall_deps_lookup splice (splice_original splice) in
  let spliced_deps := create_elfcall_deps_lookup splice (splice_spliced splice) in
  predictions ← for_each (binary_body splice spliced_deps) original_deps [];
  match predictions with
  | [] => mret splice
  | _ => mret (set_predictions (<["symbols" := predictions]> (Symbols.predictions splice)) splice)
  end.

(** [SymbolsPrediction.splice_different_libs], lines 19-23 *)
Definition splice_different_libs `{Base} (splice : Splice) : M World Splice :=
  raise NotImplementedError.

(** [SymbolsPrediction.predict], lines 11-17 *)
Definition predict `{Base} (splice : Splice) : M World Splice :=
  if different_libs splice
  then splice_different_libs splice
  else splice_equivalent_libs splice.

End Symbols.

(** * libabigail.py *)

Module Libabigail.

(** An element of a bucket of [splice.libs]. *)
Record LibSet := { paths : list string }.

(** What [utils.run_command] returns. *)
Record CommandResult := {
  cmd_message : string;
  cmd_return_code : Z;
}.

(** The dictionary of [run_command] with the keys the predictor adds; of
    ["original_lib"] and ["replace"] each mode writes one. *)
Record PredictionRecord := {
  message : string;
  return_code : Z;
  binary : string;
  splice_type : string;
  lib : string;
  original_lib : option string;
  replace : option string;
  prediction : bool;
}.

(** The attributes of the splice that the predictor reads and writes. *)
Record Splice := {
  libs : gmap string (list LibSet);
  binaries : list string;
  predictions : gmap string (list PredictionRecord);
}.

Definition set_predictions (p : gmap string (list PredictionRecord))
    (s : Splice) : Splice :=
  {| libs := libs s; binaries := binaries s; predictions := p |}.

(** What libabigail.py takes from [spliced.utils] and the rest of the class:
    [utils.run_command], which runs a process and captures its message and
    return code, and the search of [find_abicompat] (lines 25-64), whose
    result is the path of the tool when it finds one; [self.abicompat] is
    assigned only then. *)
Class Utils `{Types} := {
  run_command : string → World → CommandResult * World;
  find_abicompat : World → option string * World;
}.

(** ["%s" % x] for a string or [None] *)
Definition fmt (x : option string) : string := default "None" x.

(** ["%s %s %s %s" % (abicompat, a, b, c)] *)
Definition abicompat_command (abicompat : option string) (a b c : string) : string :=
  fmt abicompat +:+ " " +:+ a +:+ " " +:+ b +:+ " " +:+ c.

(** [res["message"] == "" and res["return_code"] == 0] *)
Definition verdict (res : CommandResult) : bool :=
  bool_decide (cmd_message res = "") && bool_decide (cmd_return_code res = 0%Z).

(** The flattening [itertools.chain] of [x["paths"] for x in l], as a list *)
Definition flatten_paths (l : list LibSet) : list string := l ≫= paths.

(** [if predictions: splice.predictions["libabigail"] = predictions] *)
Definition store_predictions (predictions : list PredictionRecord)
    (splice : Splice) : Splice :=
  match predictions with
  | [] => splice
  | _ => set_predictions
           (<["libabigail" := predictions]> (Libabigail.predictions splice)) splice
  end.

(** The dictionary built by lines 124-134 from the result of the command. *)
Definition different_record (binary original_lib replace_lib : string)
    (res : CommandResult) : PredictionRecord :=
  {| message := cmd_message res;
     return_code := cmd_return_code res;
     binary := binary;
     splice_type := "different_lib";
     lib := original_lib;
     original_lib := None;
     replace := Some replace_lib;
     prediction := verdict res |}.

(** Lines 111-135: one comparison of substitution mode. *)
Definition different_body `{Utils} (abicompat : option string)
    (binary original_lib : string)
    (predictions : list PredictionRecord) (replace_lib : string)
    : M World (list PredictionRecord) := λ w,
  let command := abicompat_command abicompat binary original_lib replace_lib in
  let '(res, w') := run_command command w in
  inr (predictions ++ [different_record binary original_lib replace_lib res], w').

(** [LibabigailPrediction.splice_different_libs], lines 92-138 *)
Definition splice_different_libs `{Utils} (abicompat : option string)
    (splice : Splice) (original_libs replace_libs : list LibSet) : M World Splice :=
  let binaries := binaries splice in
  let original_libs := flatten_paths original_libs in
  let replace_libs := flatten_paths replace_libs in
  predictions ←
    for_each (λ predictions binary,
      for_each (λ predictions original_lib,
        for_each (different_body abicompat binary original_lib)
          replace_libs predictions)
        original_libs predictions)
      binaries [];
  mret (store_predictions predictions splice).

(** [[x for x in original_libs if os.path.basename(x).startswith(libprefix)]] *)
Definition originals_for (original_libs : list string) (lib : string) : list string :=
  let libprefix := before_dot (basename lib) in
  filter (λ x, String.prefix libprefix (basename x)) original_libs.

(** The dictionary built by lines 183-195 from the result of the command;
    both ["lib"] and ["original_lib"] are assigned [lib]. *)
Definition equivalent_record (binary lib : string) (res : CommandResult)
    : PredictionRecord :=
  {| message := cmd_message res;
     return_code := cmd_return_code res;
     binary := binary;
     splice_type := "same_lib";
     lib := lib;
     original_lib := Some lib;
     replace := None;
     prediction := verdict res |}.

(** Lines 179-196: one comparison of equivalence mode. *)
Definition equivalent_body `{Utils} (abicompat : option string)
    (binary lib : string)
    (predictions : list PredictionRecord) (original : string)
    : M World (list PredictionRecord) := λ w,
  let '(res, w') := run_command (abicompat_command abicompat binary original lib) w in
  inr (predictions ++ [equivalent_record binary lib res], w').

(** [LibabigailPrediction.splice_equivalent_libs], lines 140-200 *)
Definition splice_equivalent_libs `{Utils} (abicompat : option string)
    (splice : Splice) (libs : list LibSet) : M World Splice :=
  let original_libs := flatten_paths (default [] (Libabigail.libs splice !! "original")) in
  let binaries := binaries splice in
  predictions ←
    for_each (λ predictions binary,
      for_each (λ predictions libset,
        for_each (λ predictions lib,
          for_each (equivalent_body abicompat binary lib)
            (originals_for original_libs lib) predictions)
          (paths libset) predictions)
        libs predictions)
      binaries [];
  mret (store_predictions predictions splice).

(** [LibabigailPrediction.predict], lines 66-90; [abicompat] is
    [self.abicompat] on entry. *)
Definition predict `{Utils} (abicompat : option string) (splice : Splice)
    : M World Splice := λ w,
  if bool_decide (libs splice = ∅) then inr (splice, w)
  else
    let '(abicompat, w) :=
      match abicompat with
      | Some "" | None =>
          let '(located, w') := find_abicompat w in
          (match located with Some _ => located | None => abicompat end, w')
      | Some _ => (abicompat, w)
      end in
    match libs splice !! "spliced", libs splice !! "original",
          libs splice !! "dep", libs splice !! "replace" with
    | Some ((_ :: _) as spliced), Some _, _, _ =>
        splice_equivalent_libs abicompat splice spliced w
    | _, _, Some dep, Some replace =>
        splice_different_libs abicompat splice dep replace w
    | _, _, _, _ => inr (splice, w)
    end.

End Libabigail.

(** * smeagle/__init__.py *)

Module Smeagle.

(** The file system: what is at each path.  Paths are compared as strings:
    a state stands for a file system whose paths are written in one way, and
    a path with a [..] component is not taken to be below the directory it
    is written under.  Opening a file for writing fails where the operating
    system refuses it for the shape of the tree (no parent directory, or a
    directory in the place of the file); failures for other reasons
    (permissions, space) are left out. *)
Inductive Node `{Types} :=
| Dir
| JsonFile (data : Facts)
| TextFile (text : string).

(** The calls that leave the interpreter, in the order they are made. *)
Inductive Event :=
| Extract (lib : string)
| Compare (facts_path : string) (B_set : list string)
    (deps : list (string * gset string)).

(** What [SmeagleRunner.get_smeagle_data] returns; the ["data"] key may be
    absent. *)
Record ExtractResult `{Types} := {
  data : option Facts;
  return_code : Z;
}.

(** The dictionary appended by the gate of [test_lib], lines 89-95 *)
Record FailRecord := {
  fail_return_code : Z;
  fail_lib : string;
  fail_prediction : bool;
  fail_data : list string;
  fail_message : string;
}.

(** An element of [splice.predictions["smeagle"]]: the gate's dictionary, or
    the dictionary of the comparator with the ["seconds"] key added. *)
Inductive PredictionRecord `{Types} :=
| Fail (r : FailRecord)
| Compared (res : CompareResult) (seconds : Time).

(** The attributes of the splice that the predictor only reads. *)
Record Splice `{Types} := {
  spliced : list string;
  metadata : gmap string SymbolMap;
}.

(** Everything the predictor can change: the file system, the trace of
    external calls, the world behind them, [self.cache_dir],
    [splice.predictions] and [splice.stats]; and [os.environ], which it
    reads. *)
Record State `{Types} := {
  fs : gmap string Node;
  environ : gmap string string;
  trace : list Event;
  world : World;
  cache_dir : string;
  predictions : gmap string (list PredictionRecord);
  stats : gmap string (gmap string nat);
}.

Definition set_fs `{Types} (x : gmap string Node) (st : State) : State :=
  {| fs := x; environ := environ st; trace := trace st; world := world st;
     cache_dir := cache_dir st; predictions := predictions st; stats := stats st |}.

Definition set_trace `{Types} (x : list Event) (st : State) : State :=
  {| fs := fs st; environ := environ st; trace := x; world := world st;
     cache_dir := cache_dir st; predictions := predictions st; stats := stats st |}.

Definition set_world `{Types} (x : World) (st : State) : State :=
  {| fs := fs st; environ := environ st; trace := trace st; world := x;
     cache_dir := cache_dir st; predictions := predictions st; stats := stats st |}.

Definition set_cache_dir `{Types} (x : string) (st : State) : State :=
  {| fs := fs st; environ := environ st; trace := trace st; world := world st;
     cache_dir := x; predictions := predictions st; stats := stats st |}.

Definition set_predictions `{Types} (x : gmap string (list PredictionRecord))
    (st : State) : State :=
  {| fs := fs st; environ := environ st; trace := trace st; world := world st;
     cache_dir := cache_dir st; predictions := x; stats := stats st |}.

Definition set_stats `{Types} (x : gmap string (gmap string nat)) (st : State) : State :=
  {| fs := fs st; environ := environ st; trace := trace st; world := world st;
     cache_dir := cache_dir st; predictions := predictions st; stats := x |}.

(** What the module takes from outside: the two methods of [SmeagleRunner]
    (the comparator also returns what it wrote to [out]), [time()] and the
    difference of two of its readings, [tempfile.gettempdir()],
    [utils.tempdir()] with whatever it does to the file system, and the
    truth value of extracted facts. *)
Class Tools `{Types} := {
  get_smeagle_data : gmap string Node → string → World → ExtractResult * World;
  compatible_test : gmap string Node → string → list string →
                    list (string * gset string) → World →
                    (CompareResult * string) * World;
  time : World → Time * World;
  time_sub : Time → Time → Time;
  gettempdir : string;
  tempdir : gmap string Node → World → (string * gmap string Node) * World;
  truthy : Facts → bool;
}.

(** Events of the fact extractor. *)
Definition is_extract (e : Event) : Prop :=
  match e with
  | Extract _ => True
  | Compare _ _ _ => False
  end.

(** From [st0] to [st] no path of the file system was removed, and neither
    the environment nor [self.cache_dir] changed. *)
Definition keeps_cache `{Types} (st0 st : State) : Prop :=
  environ st = environ st0 ∧
  cache_dir st = cache_dir st0 ∧
  ∀ path, is_Some (fs st0 !! path) → is_Some (fs st !! path).

(** From [st0] to [st] only facts were generated: the predictions and the
    statistics are the same, and the trace grew by extractor events. *)
Definition only_extracts `{Types} (st0 st : State) : Prop :=
  keeps_cache st0 st ∧
  predictions st = predictions st0 ∧
  stats st = stats st0 ∧
  ∃ events, Forall is_extract events ∧ trace st = trace st0 ++ events.

(** [os.path.exists(path)] *)
Definition path_exists `{Types} (fs : gmap string Node) (path : string) : bool :=
  bool_decide (is_Some (fs !! path)).

(** The proper prefixes of a path that end before a separator. *)
Fixpoint ancestors_from (cur p : string) : list string :=
  match p with
  | EmptyString => []
  | String c rest =>
      (if Ascii.eqb c "/" && negb (String.eqb cur "") then [cur] else [])
        ++ ancestors_from (cur +:+ String c "") rest
  end.

(** A directory is made where nothing is. *)
Definition mkdir_one `{Types} (d : string) (fs : gmap string Node) : gmap string Node :=
  match fs !! d with
  | None => <[d := Dir]> fs
  | Some _ => fs
  end.

(** [utils.mkdir_p(path)]: the directory and its missing ancestors. *)
Definition mkdir_p `{Types} (path : string) (fs : gmap string Node) : gmap string Node :=
  if String.eqb path "" then fs
  else foldr mkdir_one fs (ancestors_from "" path ++ [path]).

(** [utils.write_json(data, path)]: the entry at the key [path], as it is
    written.  Two keys that the operating system resolves to one file (by a
    [.] or [..] component, or a doubled separator) are two entries here; what
    is proved of the other entries of the file system is stated for
    canonical keys. *)
Definition write_json `{Types} (data : Facts) (path : string)
    (fs : gmap string Node) : gmap string Node :=
  <[path := JsonFile data]> fs.

(** A file opened with [open(path, "w")] and closed after [text] was
    written to it. *)
Definition write_text `{Types} (text : string) (path : string)
    (fs : gmap string Node) : gmap string Node :=
  <[path := TextFile text]> fs.

(** [path] is [root] or lies below it: it continues [root] and a
    separator, and does not step out again through a [..] component. *)
Definition within (root path : string) : bool :=
  String.eqb path root
  || match drop_prefix (if ends_with_sep root then root else root +:+ "/") path with
     | Some rest => negb (bool_decide (".." ∈ components rest))
     | None => false
     end.

(** [shutil.rmtree(root)] *)
Definition rmtree `{Types} (root : string) (fs : gmap string Node) : gmap string Node :=
  filter (λ kv, ¬ within root kv.1) fs.

(** The key derived by lines 155-160 *)
Definition cache_key_of (cache_dir lib prefix : string) : string :=
  if String.eqb prefix ""
  then path_join cache_dir (strip_sep lib +:+ ".json")
  else path_join cache_dir (prefix +:+ "-" +:+ strip_sep lib +:+ ".json").

(** ["data" in data and data["data"] and data["return_code"] == 0] *)
Definition extracted `{Tools} (res : ExtractResult) : option Facts :=
  match data res with
  | Some d => if truthy d && bool_decide (return_code res = 0%Z) then Some d else None
  | None => None
  end.

(** [SmeaglePrediction.generate_cle_data], lines 150-175 *)
Definition generate_cle_data `{Tools} (lib : string) (prefix : string)
    : M State (option string) := λ st,
  let cache_key := cache_key_of (cache_dir st) lib prefix in
  if path_exists (fs st) cache_key then inr (Some cache_key, st)
  else
    let '(res, w') := get_smeagle_data (fs st) lib (world st) in
    let st := set_world w' (set_trace (trace st ++ [Extract lib]) st) in
    match extracted res with
    | Some d =>
        let cache_dir := dirname cache_key in
        inr (Some cache_key,
             set_fs (write_json d cache_key (mkdir_p cache_dir (fs st))) st)
    | None => inr (None, st)
    end.

(** [splice.metadata[lib]] *)
Definition metadata_get `{Types} (splice : Splice) (key : string) : M State SymbolMap :=
  match metadata splice !! key with
  | Some m => mret m
  | None => raise (KeyError key)
  end.

(** [splice.predictions["smeagle"].append(r)] *)
Definition append_prediction `{Types} (r : PredictionRecord) : M State () := λ st,
  match predictions st !! "smeagle" with
  | Some l => inr ((), set_predictions (<["smeagle" := l ++ [r]]> (predictions st)) st)
  | None => inl (KeyError "smeagle")
  end.

(** [re.search("^(/usr|/lib)", dep)] *)
Definition is_system_path (dep : string) : bool :=
  String.prefix "/usr" dep || String.prefix "/lib" dep.

(** [if cache_key not in deps: deps[cache_key] = set()] and then
    [deps[cache_key].add(symbol)] *)
Definition deps_add (deps : list (string * gset string)) (cache_key symbol : string)
    : list (string * gset string) :=
  match PyDict.get deps cache_key with
  | None => PyDict.set deps cache_key {[symbol]}
  | Some s => PyDict.set deps cache_key (s ∪ {[symbol]})
  end.

(** The body of [for symbol, meta in ...["found"].items()], lines 107-126;
    the accumulator is the pair of [symbols] and [deps]. *)
Definition found_body `{Tools} (acc : gset string * list (string * gset string))
    (item : string * FoundMeta) : M State (gset string * list (string * gset string)) :=
  let '(symbols, deps) := acc in
  let '(symbol, meta) := item in
  match lib meta with
  | None => raise (KeyError "lib")
  | Some l =>
      let dep := realpath l in
      if is_system_path dep then mret (symbols, deps)
      else
        cache_key ← generate_cle_data dep "smeagle";
        match cache_key with
        | None => mret (symbols, deps)
        | Some cache_key => mret (symbols ∪ {[symbol]}, deps_add deps cache_key symbol)
        end
  end.

(** A statement that only updates the state. *)
Definition modify `{Types} (f : State → State) : M State () := λ st, inr ((), f st).

(** [splice.stats[lib]["total_matched_symbols"] = n] *)
Definition record_total `{Types} (lib : string) (n : nat) : M State () := λ st,
  match stats st !! lib with
  | Some d => inr ((), set_stats (<[lib := <["total_matched_symbols" := n]> d]> (stats st)) st)
  | None => inl (KeyError lib)
  end.

(** [os.path.isdir(path)] *)
Definition is_dir `{Types} (fs : gmap string Node) (path : string) : bool :=
  match fs !! path with
  | Some Dir => true
  | _ => false
  end.

(** [open(path, "w")] can create or truncate the file: there is no
    directory at [path], and the directory [path] is written in is there
    (the root and the working directory always are). *)
Definition can_open `{Types} (path : string) (fs : gmap string Node) : bool :=
  negb (is_dir fs path)
  && (String.eqb (rstrip_sep (dirname path)) "" || is_dir fs (dirname path)).

(** [open(path, "w")]: the empty file, or [OSError] ([FileNotFoundError],
    [NotADirectoryError] or [IsADirectoryError]). *)
Definition open_w `{Types} (path : string) : M State () := λ st,
  if can_open path (fs st)
  then inr ((), set_fs (write_text "" path (fs st)) st)
  else inl (OSError path).

(** Lines 134-148: the call of the comparator and what surrounds it. *)
Definition run_comparison `{Tools} (facts_path : string)
    (symbols : gset string) (deps : list (string * gset string)) : M State () := λ st,
  let B_set := deps.*1 in
  let deps := PyDict.set deps facts_path symbols in
  let output_asp := replace_json facts_path in
  match open_w output_asp st with
  | inl e => inl e
  | inr (_, st) =>
      let '(t1, w1) := time (world st) in
      let '(res, text, w2) := compatible_test (fs st) facts_path B_set deps w1 in
      let '(t2, w3) := time w2 in
      let st := set_world w3 (set_trace (trace st ++ [Compare facts_path B_set deps]) st) in
      match append_prediction (Compared res (time_sub t2 t1)) st with
      | inl e => inl e
      | inr (_, st) => inr ((), set_fs (write_text text output_asp (fs st)) st)
      end
  end.

(** The dictionary of the gate, lines 89-95 *)
Definition missing_record (lib : string) (missing : list string) : FailRecord :=
  {| fail_return_code := -1;
     fail_lib := lib;
     fail_prediction := false;
     fail_data := missing;
     fail_message := "Library is missing symbols, so smeagle model would fail." |}.

(** [SmeaglePrediction.test_lib], lines 78-148 *)
Definition test_lib `{Tools} (splice : Splice) (lib facts_path : string) : M State () :=
  m ← metadata_get splice lib;
  if bool_decide (missing m ≠ [])
  then append_prediction (Fail (missing_record lib (missing m)))
  else
    _ ← modify (λ st, set_stats (<[lib := ∅]> (stats st)) st);
    acc ← for_each found_body (found m) (∅, []);
    _ ← record_total lib (size acc.1);
    run_comparison facts_path acc.1 acc.2.

(** The body of [for lib in splice.spliced], lines 66-69 *)
Definition spliced_body `{Tools} (spliced : list (string * string)) (lib : string)
    : M State (list (string * string)) :=
  cache_key ← generate_cle_data lib "smeagle";
  match cache_key with
  | Some cache_key => mret (PyDict.set spliced lib cache_key)
  | None => mret spliced
  end.

(** Lines 39-54: the choice of the cache directory; the result is [cleanup]. *)
Definition setup_cache `{Tools} : M State bool := λ st,
  let cache_dir :=
    default (path_join gettempdir "spliced-cache")
            (environ st !! "SPLICED_SMEAGLE_CACHE_DIR") in
  let st := set_cache_dir cache_dir st in
  if negb (String.eqb cache_dir "") && negb (path_exists (fs st) cache_dir)
  then inr (false, set_fs (mkdir_p cache_dir (fs st)) st)
  else if String.eqb cache_dir ""
  then
    let '(dir, fs', w') := tempdir (fs st) (world st) in
    inr (true, set_cache_dir dir (set_world w' (set_fs fs' st)))
  else inr (false, st).

(** Lines 75-76: the removal of a temporary cache. *)
Definition cleanup_cache `{Types} (cleanup : bool) : M State () := λ st,
  if cleanup && path_exists (fs st) (cache_dir st)
  then inr ((), set_fs (rmtree (cache_dir st) (fs st)) st)
  else inr ((), st).

(** [SmeaglePrediction.predict], lines 19-76 *)
Definition predict `{Tools} (splice : Splice) : M State () :=
  match spliced splice with
  | [] => mret ()
  | _ =>
      cleanup ← setup_cache;
      _ ← modify (λ st, set_predictions (<["smeagle" := []]> (predictions st)) st);
      spliced ← for_each spliced_body (Smeagle.spliced splice) [];
      _ ← for_each (λ _ '(lib, facts_path), test_lib splice lib facts_path) spliced ();
      cleanup_cache cleanup
  end.

End Smeagle.

(** * A concrete environment, to run the predictors on examples *)

Module Example.

(** The clock counts its readings; facts and comparator results are kept as
    text. *)
#[export] Instance types : Types := {|
  World := nat;
  Time := nat;
  ExportInfo := ();
  Deps := list string;
  Facts := string;
  CompareResult := Z * string;
|}.

(** Modelled from the spec: [get_prefix] of [.base], which is not among the
    sources.  "Identity key = basename of the path, truncated at the first
    [.] (drops version/suffix)." *)
Definition get_prefix (path : string) : string := before_dot (basename path).

(** Modelled from the spec: [match_by_prefix] of [.base], which is not among
    the sources.  "For each key present in both sides, emit one match
    [(originalPath, splicedPath)]. Keys present only on one side are skipped
    without error." *)
Definition match_by_prefix (original_deps spliced_deps : list string)
    : list Symbols.Match :=
  original ← original_deps;
  spliced ← filter (λ s, get_prefix s = get_prefix original) spliced_deps;
  [{| Symbols.original := original; Symbols.spliced := spliced |}].

(** A lookup with one entry per path, keyed by its identity key, whose
    dependencies are the libraries that resolve its symbols. *)
Definition create_elfcall_deps_lookup (splice : Symbols.Splice) (paths : list string)
    : list (string * Symbols.DepMeta) :=
  (λ path,
     (get_prefix path,
      {| Symbols.meta_lib := path;
         Symbols.meta_deps :=
           match Symbols.metadata splice !! path with
           | Some m => omap (λ sx, realpath <$> lib sx.2) (found m)
           | None => []
           end |})) <$> paths.

(** A decorator that stores the clock reading and advances the clock. *)
Definition time_run_decorator (r : Symbols.PredictionRecord)
    : M nat Symbols.PredictionRecord :=
  λ w, inr (Symbols.set_seconds (Some w) r, S w).

#[export] Instance base : Symbols.Base := {|
  Symbols.get_prefix := get_prefix;
  Symbols.match_by_prefix := match_by_prefix;
  Symbols.create_elfcall_deps_lookup := create_elfcall_deps_lookup;
  Symbols.time_run_decorator := time_run_decorator;
|}.

Definition resolved (symbol path : string) : string * FoundMeta :=
  (symbol, {| lib := Some {| realpath := path |} |}).

Definition symbol_map (found : list (string * FoundMeta)) (missing : list string)
    (exported : list string) : SymbolMap :=
  {| found := found; missing := missing; exported := (λ s, (s, ())) <$> exported |}.

Definition symbols_splice (different_libs : bool) (original spliced : list string)
    (metadata : list (string * SymbolMap)) : Symbols.Splice :=
  {| Symbols.different_libs := different_libs;
     Symbols.splice_original := original;
     Symbols.splice_spliced := spliced;
     Symbols.metadata := list_to_map metadata;
     Symbols.predictions := ∅ |}.

(** The lookup entries of a binary and of its spliced counterpart. *)
Definition app_meta : Symbols.DepMeta :=
  {| Symbols.meta_lib := "/orig/bin/app";
     Symbols.meta_deps := ["/orig/lib/libx.so.1"] |}.

Definition new_app_meta : Symbols.DepMeta :=
  {| Symbols.meta_lib := "/new/bin/app";
     Symbols.meta_deps := ["/new/lib/libx.so.2"] |}.

(** The original binary cannot resolve [bar]; the spliced tree has no
    binary with its identity key. *)
Definition broken_unmatched : Symbols.Splice :=
  symbols_splice false ["/orig/bin/app"] []
    [("/orig/bin/app", symbol_map [resolved "foo" "/orig/lib/libx.so.1"] ["bar"] [])].

(** The original binary cannot resolve [bar]; the spliced tree has its
    counterpart. *)
Definition broken_matched : Symbols.Splice :=
  symbols_splice false ["/orig/bin/app"] ["/new/bin/app"]
    [("/orig/bin/app", symbol_map [resolved "foo" "/orig/lib/libx.so.1"] ["bar"] []);
     ("/new/bin/app", symbol_map [resolved "foo" "/new/lib/libx.so.2"] [] [])].

(** [foo] is resolved before the splice and by nothing after it. *)
Definition dropped_symbol : Symbols.Splice :=
  symbols_splice false ["/orig/bin/app"] ["/new/bin/app"]
    [("/orig/bin/app", symbol_map [resolved "foo" "/orig/lib/libx.so.1"] [] []);
     ("/new/bin/app", symbol_map [] [] [])].

(** The dependency exports [a], [b], [c] before the splice and [a], [c]
    after it. *)
Definition dropped_export : Symbols.Splice :=
  symbols_splice false ["/orig/bin/app"] ["/new/bin/app"]
    [("/orig/bin/app", symbol_map [resolved "a" "/orig/lib/libx.so.1"] [] []);
     ("/new/bin/app", symbol_map [resolved "a" "/new/lib/libx.so.2"] [] []);
     ("original:/orig/lib/libx.so.1", symbol_map [] [] ["a"; "b"; "c"]);
     ("spliced:/new/lib/libx.so.2", symbol_map [] [] ["a"; "c"])].

(** A comparator that reports a change from its second call on. *)
#[export] Instance utils : Libabigail.Utils := {|
  Libabigail.run_command := λ command w,
    ({| Libabigail.cmd_message := match w with O => "" | S _ => "ABI changed" end;
        Libabigail.cmd_return_code := Z.of_nat w |}, S w);
  Libabigail.find_abicompat := λ w, (Some "/usr/bin/abicompat", w);
|}.

(** One binary, and a library whose version changes in the splice. *)
Definition version_bump : Libabigail.Splice :=
  {| Libabigail.libs :=
       list_to_map
         [("original", [{| Libabigail.paths := ["/orig/lib/libx.so.1"] |}]);
          ("spliced", [{| Libabigail.paths := ["/new/lib/libx.so.2"] |}])];
     Libabigail.binaries := ["/new/bin/app"];
     Libabigail.predictions := ∅ |}.

(** An extractor that fails on the libraries below [/opt/bad], a comparator
    that always agrees, a clock that counts its readings, and a temporary
    directory made on demand. *)
#[export] Instance tools : Smeagle.Tools := {|
  Smeagle.get_smeagle_data := λ fs lib w,
    (if String.prefix "/opt/bad" lib
     then {| Smeagle.data := None; Smeagle.return_code := 1 |}
     else {| Smeagle.data := Some ("facts of " +:+ lib); Smeagle.return_code := 0 |},
     S w);
  Smeagle.compatible_test := λ fs facts_path B_set deps w, ((0%Z, ""), "compatible", S w);
  Smeagle.time := λ w, (w, S w);
  Smeagle.time_sub := Nat.sub;
  Smeagle.gettempdir := "/tmp";
  Smeagle.tempdir := λ fs w, ("/tmp/tmp0", <["/tmp/tmp0" := Smeagle.Dir]> fs, S w);
  Smeagle.truthy := λ d, negb (String.eqb d "");
|}.

Definition smeagle_state (environ : list (string * string)) : Smeagle.State :=
  {| Smeagle.fs := {["/tmp" := Smeagle.Dir]};
     Smeagle.environ := list_to_map environ;
     Smeagle.trace := [];
     Smeagle.world := 0;
     Smeagle.cache_dir := "/var/cache/spliced";
     Smeagle.predictions := {["smeagle" := []]};
     Smeagle.stats := ∅ |}.

(** A state whose cache already has the facts of a library. *)
Definition cached_state : Smeagle.State :=
  {| Smeagle.fs :=
       {["/var/cache/spliced/smeagle-opt/lib/libz.so.1.json" :=
           Smeagle.JsonFile "facts of /opt/lib/libz.so.1"]};
     Smeagle.environ := ∅;
     Smeagle.trace := [];
     Smeagle.world := 0;
     Smeagle.cache_dir := "/var/cache/spliced";
     Smeagle.predictions := {["smeagle" := []]};
     Smeagle.stats := ∅ |}.

(** A spliced library that resolves one symbol from a library outside the
    system paths. *)
Definition one_dependency : Smeagle.Splice :=
  {| Smeagle.spliced := ["/new/lib/libx.so.2"];
     Smeagle.metadata :=
       {["/new/lib/libx.so.2" :=
           symbol_map [resolved "foo" "/opt/lib/libz.so.1"] [] ["bar"]]} |}.

(** A spliced library with an unresolved symbol. *)
Definition unresolved_symbol : Smeagle.Splice :=
  {| Smeagle.spliced := ["/new/lib/libx.so.2"];
     Smeagle.metadata :=
       {["/new/lib/libx.so.2" :=
           symbol_map [resolved "foo" "/opt/lib/libz.so.1"] ["baz"] ["bar"]]} |}.

End Example.

(** * Vocabulary of the further properties *)

(** The four values of the "command" key that symbols.py writes. *)
Definition symbols_commands : list string :=
  ["binary-checks-loader-missing-symbols-for-original";
   "binary-checks-symbol-provisioner-change";
   "missing-previously-found-symbols";
   "missing-previously-found-exports"].

(** A record of the symbols predictor is about a binary of the original
    lookup, has [splice_type] "same_lib" and one of the four commands. *)
Definition symbols_record_ok `{Types}
    (original_deps : list (string * Symbols.DepMeta))
    (r : Symbols.PredictionRecord) : Prop :=
  Symbols.splice_type r = "same_lib" ∧
  Symbols.command r ∈ symbols_commands ∧
  ∃ binary meta, (binary, meta) ∈ original_deps ∧
                 Symbols.binary r = Symbols.meta_lib meta.

(** * Further scenarios *)

Module Scenario.
Import Example.

(** A splice after which the binary resolves [foo] from the same library. *)
Definition same_resolution : Symbols.Splice :=
  symbols_splice false ["/orig/bin/app"] ["/new/bin/app"]
    [("/orig/bin/app", symbol_map [resolved "foo" "/orig/lib/libx.so.1"] [] []);
     ("/new/bin/app", symbol_map [resolved "foo" "/orig/lib/libx.so.1"] [] [])].

(** A splice whose metadata has no symbol map at all. *)
Definition no_metadata : Symbols.Splice :=
  symbols_splice false ["/orig/bin/app"] ["/new/bin/app"] [].

Definition bare_meta (path : string) : Symbols.DepMeta :=
  {| Symbols.meta_lib := path; Symbols.meta_deps := [] |}.

(** A splice whose spliced library has no counterpart among the originals. *)
Definition unrelated_libs : Libabigail.Splice :=
  {| Libabigail.libs :=
       list_to_map
         [("original", [{| Libabigail.paths := ["/orig/lib/liby.so.1"] |}]);
          ("spliced", [{| Libabigail.paths := ["/new/lib/libx.so.2"] |}])];
     Libabigail.binaries := ["/new/bin/app"];
     Libabigail.predictions := ∅ |}.

(** A spliced library all of whose symbols come from a system library. *)
Definition system_only : Smeagle.Splice :=
  {| Smeagle.spliced := ["/new/lib/libx.so.2"];
     Smeagle.metadata :=
       {["/new/lib/libx.so.2" :=
           symbol_map [resolved "printf" "/usr/lib/libc.so.6";
                       resolved "dlopen" "/lib/libdl.so.2"] [] []]} |}.

(** The state in which [predict] calls [test_lib]: the facts of the spliced
    library are in the cache, in a directory made for them. *)
Definition facts_ready : Smeagle.State :=
  {| Smeagle.fs :=
       {["/tmp" := Smeagle.Dir;
         "/var/cache/spliced/smeagle-new/lib" := Smeagle.Dir;
         "/var/cache/spliced/smeagle-new/lib/libx.so.2.json" :=
           Smeagle.JsonFile "facts of /new/lib/libx.so.2"]};
     Smeagle.environ := ∅;
     Smeagle.trace := [];
     Smeagle.world := 0;
     Smeagle.cache_dir := "/var/cache/spliced";
     Smeagle.predictions := {["smeagle" := []]};
     Smeagle.stats := ∅ |}.

(** A spliced library without missing symbols, one of whose found symbols
    has no "lib" key: the entries that symbols.py skips with ["lib" in x]. *)
Definition entry_without_lib : Smeagle.Splice :=
  {| Smeagle.spliced := ["/new/lib/libx.so.2"];
     Smeagle.metadata :=
       {["/new/lib/libx.so.2" :=
           symbol_map [resolved "foo" "/opt/lib/libz.so.1"; ("bar", {| lib := None |})]
             [] []]} |}.

End Scenario.

(** * libabigail.py: the search for the tool *)

Module Locate.

(** [add_to_path], lines 15-18: [os.environ["PATH"]] is read, and raises
    when the variable is unset; [os.putenv] and the assignment to
    [os.environ] set the same variable. *)
Definition add_to_path (path : string) (environ : gmap string string)
    : exn + gmap string string :=
  match environ !! "PATH" with
  | Some old => inr (<["PATH" := path +:+ ":" +:+ old]> environ)
  | None => inl (KeyError "PATH")
  end.

(** What [find_abicompat] takes from outside: [utils.which], whose result
    has the path of the executable under "message", empty when there is
    none, and which reads the environment; and the steps of lines 35-46 that
    ask spack for an installation of libabigail, which give its prefix, or
    nothing when one of them raises, and the environment they leave. *)
Class Host `{Types} := {
  which : gmap string string → string → World → string * World;
  spack_libabigail : gmap string string → World →
                     (option string * gmap string string) * World;
}.

(** [LibabigailPrediction.find_abicompat], lines 25-64.  The result is the
    value assigned to [self.abicompat], if the method assigns one, and the
    environment. *)
Definition find_abicompat `{Host} (environ : gmap string string) (w : World)
    : (option string * gmap string string) * World :=
  let '(message, w) := which environ "abicompat" w in
  if String.eqb message ""
  then
    let '(prefix, environ, w) := spack_libabigail environ w in
    match prefix with
    | None => (None, environ, w)
    | Some prefix =>
        match add_to_path (path_join prefix "bin") environ with
        | inl _ => (None, environ, w)
        | inr environ =>
            let '(message, w) := which environ "abicompat" w in
            if String.eqb message "" then (None, environ, w)
            else (Some message, environ, w)
        end
    end
  else (Some message, environ, w).

End Locate.

(** * symbols.py: the records of one dependency match *)

(** The records that the loop over the matches appends for [match_]: the
    record of the missing-symbols check and, when the metadata has both
    export maps of the match, after it the record of the missing-exports
    check on these maps; each as its check computes it, with the time that
    the decorator adds. *)
Definition match_records `{Types} (splice : Symbols.Splice) (binary_fullpath : string)
    (binary_symbols spliced_symbols : SymbolMap) (match_ : Symbols.Match)
    (rs : list Symbols.PredictionRecord) : Prop :=
  match Symbols.metadata splice !! ("original:" +:+ Symbols.original match_),
        Symbols.metadata splice !! ("spliced:" +:+ Symbols.spliced match_) with
  | Some original_exports, Some spliced_exports =>
      ∃ t t',
        rs = [Symbols.set_seconds t
                (Symbols.missing_previously_found_symbols_body binary_fullpath
                   binary_symbols spliced_symbols match_);
              Symbols.set_seconds t'
                (Symbols.missing_previously_found_exports_body binary_fullpath
                   match_ original_exports spliced_exports)]
  | _, _ =>
      ∃ t,
        rs = [Symbols.set_seconds t
                (Symbols.missing_previously_found_symbols_body binary_fullpath
                   binary_symbols spliced_symbols match_)]
  end.

(** * smeagle/__init__.py: what the walk over the found map keeps *)

(** The accumulator of the loop of [test_lib] over the found map [items],
    in state [st]: [deps] is a dictionary, the symbols of each of its entries
    are among [symbols], every one of [symbols] is a key of [items] and
    belongs to an entry, and every key of [deps] is in the file system. *)
Definition walk_invariant `{Types} (items : list (string * FoundMeta))
    (acc : gset string * list (string * gset string)) (st : Smeagle.State) : Prop :=
  NoDup acc.2.*1 ∧
  (∀ k s, (k, s) ∈ acc.2 → s ⊆ acc.1) ∧
  (∀ x, x ∈ acc.1 → x ∈ items.*1 ∧ ∃ k s, (k, s) ∈ acc.2 ∧ x ∈ s) ∧
  (∀ k, k ∈ acc.2.*1 → is_Some (Smeagle.fs st !! k)).

(** * Properties *)

(** ** The monad and its loops *)

Lemma bind_inr {W A B} (m : M W A) (f : A → M W B) w b w' :
  (m ≫= f) w = inr (b, w') ↔ ∃ a w1, m w = inr (a, w1) ∧ f a w1 = inr (b, w').
Proof.
  unfold mbind, M_bind. split.
  - destruct (m w) as [e|[a w1]]; [done|]. intros Hf. by exists a, w1.
  - intros (a & w1 & -> & Hf). done.
Qed.

Lemma for_each_app {W A B} (body : B → A → M W B) l1 l2 acc w :
  for_each body (l1 ++ l2) acc w =
  match for_each body l1 acc w with
  | inl e => inl e
  | inr (acc', w') => for_each body l2 acc' w'
  end.
Proof.
  revert acc w. induction l1 as [|x l1 IH]; intros acc w; simpl; [done|].
  unfold mbind, M_bind. destruct (body acc x w) as [e|[acc' w']]; [done|].
  apply IH.
Qed.

Lemma appended_to_app {W A} (acc new : list A) (r : exn + (list A * W)) :
  appended_to acc (appended_to new r) = appended_to (acc ++ new) r.
Proof. destruct r as [e|[l w]]; simpl; [done|]. by rewrite (assoc_L (++)). Qed.

Lemma appended_to_nil {W A} (r : exn + (list A * W)) : appended_to [] r = r.
Proof. by destruct r as [e|[l w]]. Qed.

(** A loop whose body only appends to its accumulator only appends. *)
Lemma for_each_appended {W A B} (body : list B → A → M W (list B)) :
  (∀ acc x w, body acc x w = appended_to acc (body [] x w)) →
  ∀ l acc w, for_each body l acc w = appended_to acc (for_each body l [] w).
Proof.
  intros Hbody l. induction l as [|x l IH]; intros acc w; simpl.
  - unfold mret, M_ret. simpl. by rewrite (right_id_L [] (++)).
  - unfold mbind, M_bind. rewrite (Hbody acc x w).
    destruct (body [] x w) as [e|[new w1]]; simpl; [done|].
    rewrite (IH (acc ++ new)), (IH new). by rewrite appended_to_app.
Qed.

(** The records of a completed loop are those of the items before [x], those
    of [x] and those of the items after it. *)
Lemma for_each_split {W A B} (body : list B → A → M W (list B)) pre x post w ps w' :
  (∀ acc x w, body acc x w = appended_to acc (body [] x w)) →
  for_each body (pre ++ x :: post) [] w = inr (ps, w') →
  ∃ before w1 new w2 after,
    for_each body pre [] w = inr (before, w1) ∧
    body [] x w1 = inr (new, w2) ∧
    for_each body post [] w2 = inr (after, w') ∧
    ps = before ++ new ++ after.
Proof.
  intros Hbody. rewrite for_each_app.
  destruct (for_each body pre [] w) as [e|[before w1]]; [done|].
  simpl. unfold mbind, M_bind. rewrite (Hbody before x w1).
  destruct (body [] x w1) as [e|[new w2]] eqn:Hx; simpl; [done|].
  rewrite (for_each_appended body Hbody post (before ++ new) w2).
  destruct (for_each body post [] w2) as [e|[after w3]] eqn:Hpost; simpl; [done|].
  intros [= <- <-]. exists before, w1, new, w2, after.
  split_and!; [done..|]. by rewrite (assoc_L (++)).
Qed.

(** A loop returns, and keeps what each turn of its body keeps. *)
Lemma for_each_invariant {W A B} (P : B → W → Prop) (body : B → A → M W B) l :
  (∀ acc x w, x ∈ l → P acc w →
              ∃ acc' w', body acc x w = inr (acc', w') ∧ P acc' w') →
  ∀ acc w, P acc w → ∃ acc' w', for_each body l acc w = inr (acc', w') ∧ P acc' w'.
Proof.
  induction l as [|x l IH]; intros Hbody acc w HP; simpl.
  - by exists acc, w.
  - destruct (Hbody acc x w) as (acc1 & w1 & Hx & HP1); [left|done|].
    unfold mbind, M_bind. rewrite Hx. apply IH; [|done].
    intros acc' y w' Hy. apply Hbody. by right.
Qed.

(** What holds whenever a turn of the body returns holds when the loop
    returns. *)
Lemma for_each_preserves {W A B} (P : B → W → Prop) (body : B → A → M W B) l :
  (∀ acc x w acc' w', x ∈ l → P acc w → body acc x w = inr (acc', w') → P acc' w') →
  ∀ acc w acc' w', P acc w → for_each body l acc w = inr (acc', w') → P acc' w'.
Proof.
  induction l as [|x l IH]; intros Hbody acc w acc' w' HP; simpl.
  - by intros [= <- <-].
  - intros Hrun. apply bind_inr in Hrun as (acc1 & w1 & Hx & Hrest).
    apply (IH (λ a b c d e Hin, Hbody a b c d e (list_elem_of_further _ _ _ Hin))
             acc1 w1 acc' w'); [|done].
    apply (Hbody acc x w); [left|done..].
Qed.

(** ** symbols.py *)

Section symbols.
Context {T : Types} {B : Symbols.Base}.
Import Symbols.

Lemma match_body_appended splice binary_fullpath binary_symbols spliced_symbols :
  ∀ acc match_ w,
    match_body splice binary_fullpath binary_symbols spliced_symbols acc match_ w =
    appended_to acc
      (match_body splice binary_fullpath binary_symbols spliced_symbols [] match_ w).
Proof.
  intros acc m w. unfold match_body, mbind, M_bind, missing_previously_found_symbols.
  destruct (time_run_decorator _ w) as [e|[r w1]]; simpl; [done|].
  case_bool_decide; simpl; [done|].
  unfold metadata_get.
  destruct (metadata splice !! _) as [oe|]; simpl; [|done].
  destruct (metadata splice !! _) as [se|]; simpl; [|done].
  unfold missing_previously_found_exports.
  destruct (time_run_decorator _ w1) as [e|[r' w2]]; simpl; [done|].
  by rewrite <-(assoc_L (++)).
Qed.

Lemma binary_body_appended splice spliced_deps :
  ∀ acc item w,
    binary_body splice spliced_deps acc item w =
    appended_to acc (binary_body splice spliced_deps [] item w).
Proof.
  intros acc [binary meta] w. unfold binary_body.
  destruct (PyDict.get spliced_deps binary) as [spliced_meta|]; simpl.
  2:{ by rewrite (right_id_L [] (++)). }
  unfold mbind, M_bind, metadata_get.
  destruct (metadata splice !! meta_lib meta) as [bs|]; simpl; [|done].
  case_bool_decide; simpl; [done|].
  destruct (metadata splice !! meta_lib spliced_meta) as [ss|]; simpl; [|done].
  destruct (check_symbol_provisioner_change _ _ _ w) as [e|[r w1]]; simpl; [done|].
  rewrite (for_each_appended _ (match_body_appended _ _ _ _) _ (acc ++ [r])).
  rewrite (for_each_appended _ (match_body_appended _ _ _ _) _ [r]).
  by rewrite appended_to_app.
Qed.

(** C1, as amended.  Take a top-level binary of the original lookup whose
    original symbol map has a non-empty [missing] list.  When the spliced
    lookup also has the binary, the iteration of the loop for it appends
    exactly one record, the failing record of the gate with [splice_type]
    "same_lib", and in a run that completes the "symbols" bucket is made of
    the records of the binaries before it, this one record, and the records
    of the binaries after it.  When the spliced lookup lacks the binary, it
    is skipped before the gate: its iteration appends nothing, and a run that
    completes stores the records of the binaries before it followed by those
    of the binaries after it, and leaves the splice as it is when there are
    none. *)
Theorem symbols_gate_single_record splice pre binary meta post bs :
  let original_deps := create_elfcall_deps_lookup splice (splice_original splice) in
  let spliced_deps := create_elfcall_deps_lookup splice (splice_spliced splice) in
  let body := binary_body splice spliced_deps in
  let r := loader_missing_record (meta_lib meta) bs in
  original_deps = pre ++ (binary, meta) :: post →
  metadata splice !! meta_lib meta = Some bs →
  missing bs ≠ [] →
  (is_Some (PyDict.get spliced_deps binary) →
     (∀ acc w, body acc (binary, meta) w = inr (acc ++ [r], w)) ∧
     Symbols.binary r = meta_lib meta ∧
     prediction r = false ∧
     splice_type r = "same_lib" ∧
     (∀ w splice' w',
        splice_equivalent_libs splice w = inr (splice', w') →
        ∃ before w1 after,
          for_each body pre [] w = inr (before, w1) ∧
          for_each body post [] w1 = inr (after, w') ∧
          predictions splice' !! "symbols" = Some (before ++ [r] ++ after))) ∧
  (PyDict.get spliced_deps binary = None →
     (∀ acc w, body acc (binary, meta) w = inr (acc, w)) ∧
     (∀ w splice' w',
        splice_equivalent_libs splice w = inr (splice', w') →
        ∃ before w1 after,
          for_each body pre [] w = inr (before, w1) ∧
          for_each body post [] w1 = inr (after, w') ∧
          splice' = match before ++ after with
                    | [] => splice
                    | ps => set_predictions
                              (<["symbols" := ps]> (predictions splice)) splice
                    end)).
Proof.
  intros original_deps spliced_deps body r Hdeps Hbs Hmissing.
  assert (Hsplit : ∀ w splice' w',
    splice_equivalent_libs splice w = inr (splice', w') →
    ∃ before w1 new w2 after,
      for_each body pre [] w = inr (before, w1) ∧
      body [] (binary, meta) w1 = inr (new, w2) ∧
      for_each body post [] w2 = inr (after, w') ∧
      splice' = match before ++ new ++ after with
                | [] => splice
                | ps => set_predictions
                          (<["symbols" := ps]> (predictions splice)) splice
                end).
  { intros w splice' w' Hrun. unfold splice_equivalent_libs in Hrun.
    apply bind_inr in Hrun as (ps & w2 & Hloop & Hstore).
    fold original_deps spliced_deps body in Hloop. rewrite Hdeps in Hloop.
    apply for_each_split in Hloop
      as (before & w1 & new & w3 & after & Hpre & Hx & Hpost & ->);
      [|apply binary_body_appended].
    exists before, w1, new, w3, after.
    destruct (before ++ new ++ after); by injection Hstore as <- <-. }
  split.
  - intros [spliced_meta Hin].
    assert (Hbody : ∀ acc w, body acc (binary, meta) w = inr (acc ++ [r], w)).
    { intros acc w. unfold body, binary_body. rewrite Hin.
      unfold mbind, M_bind, metadata_get. rewrite Hbs. simpl.
      by rewrite bool_decide_true. }
    split_and!; [done..|].
    intros w splice' w' Hrun.
    destruct (Hsplit w splice' w' Hrun)
      as (before & w1 & new & w2 & after & Hpre & Hx & Hpost & ->).
    rewrite Hbody in Hx. injection Hx as <- <-.
    exists before, w1, after. split_and!; [done..|].
    destruct (before ++ [r] ++ after) as [|r0 l] eqn:Hps.
    { by destruct before. }
    simpl. by rewrite lookup_insert_eq.
  - intros Hin.
    assert (Hbody : ∀ acc w, body acc (binary, meta) w = inr (acc, w)).
    { intros acc w. unfold body, binary_body. by rewrite Hin. }
    split; [done|].
    intros w splice' w' Hrun.
    destruct (Hsplit w splice' w' Hrun)
      as (before & w1 & new & w2 & after & Hpre & Hx & Hpost & ->).
    rewrite Hbody in Hx. injection Hx as <- <-.
    by exists before, w1, after.
Qed.

Lemma elem_of_resolved_by path (symbols : list (string * FoundMeta)) s :
  s ∈ resolved_by path symbols ↔
  ∃ x l, (s, x) ∈ symbols ∧ lib x = Some l ∧ realpath l = path.
Proof.
  unfold resolved_by. rewrite list_elem_of_fmap. split.
  - intros ([s' x] & -> & Hin). apply list_elem_of_filter in Hin as [Hres Hin].
    simpl in *. unfold resolved_in in Hres.
    destruct (lib x) as [l|] eqn:Hl; [|done].
    apply bool_decide_unpack in Hres. by exists x, l.
  - intros (x & l & Hin & Hl & Hpath). exists (s, x). split; [done|].
    apply list_elem_of_filter. split; [|done].
    simpl. unfold resolved_in. rewrite Hl. by apply bool_decide_pack.
Qed.

Lemma elem_of_not_in_after (before after : list string) s :
  s ∈ not_in_after before after ↔ s ∈ before ∧ s ∉ after.
Proof. unfold not_in_after. rewrite list_elem_of_filter. tauto. Qed.

Lemma not_in_after_subseteq (before after : list string) :
  before ⊆ after → not_in_after before after = [].
Proof.
  intros Hsub. destruct (not_in_after before after) as [|s l] eqn:Heq; [done|].
  assert (s ∈ not_in_after before after) as Hin by (rewrite Heq; left).
  apply elem_of_not_in_after in Hin as [Hb Ha]. destruct Ha. by apply Hsub.
Qed.

(** C2.  The missing-previously-found-symbols check returns a record whose
    message is the list of the symbols that the match's original library
    resolves in the original binary's found map and that the match's spliced
    library does not resolve in the spliced binary's found map; its
    prediction is true exactly when that list is empty, and so it is true
    whenever every such before-symbol is also an after-symbol. *)
Theorem missing_symbols_check {F : TimeRunFrame} binary
    (original_symbols spliced_symbols : SymbolMap) match_ w :
  let before s := ∃ x l, (s, x) ∈ found original_symbols ∧
                         lib x = Some l ∧ realpath l = original match_ in
  let after s := ∃ x l, (s, x) ∈ found spliced_symbols ∧
                        lib x = Some l ∧ realpath l = spliced match_ in
  ∃ r w' missing_symbols,
    missing_previously_found_symbols binary original_symbols spliced_symbols
      match_ w = inr (r, w') ∧
    message r = MsgList missing_symbols ∧
    (∀ s, s ∈ missing_symbols ↔ before s ∧ ¬ after s) ∧
    (prediction r = true ↔ missing_symbols = []) ∧
    ((∀ s, before s → after s) → prediction r = true).
Proof.
  intros before after. unfold missing_previously_found_symbols.
  destruct (time_run_frame
              (missing_previously_found_symbols_body binary original_symbols
                 spliced_symbols match_) w) as (t & w' & ->).
  eexists _, w', _. split; [done|]. simpl. split; [done|].
  assert (Hmem : ∀ s,
    s ∈ not_in_after (resolved_by (original match_) (found original_symbols))
          (resolved_by (spliced match_) (found spliced_symbols))
    ↔ before s ∧ ¬ after s).
  { intros s. rewrite elem_of_not_in_after, !elem_of_resolved_by. done. }
  split_and!; [done| |].
  - split; [apply bool_decide_eq_true_1|apply bool_decide_eq_true_2].
  - intros Hsub. apply bool_decide_eq_true_2, not_in_after_subseteq.
    intros s. rewrite !elem_of_resolved_by. apply Hsub.
Qed.

(** The lines of a provisioner-change message: a symbol that the spliced
    lookup lacks gets one and the same line, whatever its name. *)
Lemma changed_lines_missing spliced_symbols symbol prefix :
  PyDict.get spliced_symbols symbol = None →
  changed_lines spliced_symbols (symbol, prefix)
  = ["symbol {symbol} is missing in splice"].
Proof. intros Hget. unfold changed_lines. by rewrite Hget. Qed.

Lemma changed_lines_changed spliced_symbols symbol prefix after :
  PyDict.get spliced_symbols symbol = Some after → after ≠ prefix →
  changed_lines spliced_symbols (symbol, prefix)
  = ["symbol " +:+ symbol +:+ " was originally provided by " +:+ prefix
       +:+ ", after splice is provided by " +:+ after].
Proof. intros Hget Hne. unfold changed_lines. rewrite Hget. by rewrite decide_True. Qed.

Lemma changed_lines_same spliced_symbols symbol prefix :
  PyDict.get spliced_symbols symbol = Some prefix →
  changed_lines spliced_symbols (symbol, prefix) = [].
Proof.
  intros Hget. unfold changed_lines. rewrite Hget.
  rewrite decide_False; [done|]. by intros Hne.
Qed.

Lemma changed_nil (original_symbols spliced_symbols : list (string * string)) :
  original_symbols ≫= changed_lines spliced_symbols = [] ↔
  ∀ symbol prefix, (symbol, prefix) ∈ original_symbols →
                   PyDict.get spliced_symbols symbol = Some prefix.
Proof.
  induction original_symbols as [|[symbol prefix] l IH].
  - split; [|done]. intros _ ?? Hin. by apply elem_of_nil in Hin.
  - rewrite bind_cons. split.
    + intros Happ. apply app_eq_nil in Happ as [Hhd Htl].
      intros symbol' prefix' Hin. apply elem_of_cons in Hin as [[= -> ->]|Hin].
      * unfold changed_lines in Hhd.
        destruct (PyDict.get spliced_symbols symbol) as [after|] eqn:Hget; [|done].
        destruct (decide (after ≠ prefix)) as [Hne|Heq]; [done|].
        f_equal. by destruct (decide (after = prefix)).
      * by apply IH.
    + intros Hall. rewrite (changed_lines_same _ _ _ (Hall _ _ ltac:(left))).
      simpl. apply IH. intros ?? Hin. apply Hall. by right.
Qed.

(** X2.  The verdict of the provisioner-change check: true exactly when
    every symbol of the original lookup has the same identity key in the
    spliced lookup. *)
Lemma provisioner_change_prediction {F : TimeRunFrame} splice meta spliced_meta
    binary_symbols spliced_symbols w :
  metadata splice !! meta_lib meta = Some binary_symbols →
  metadata splice !! meta_lib spliced_meta = Some spliced_symbols →
  ∃ r w',
    check_symbol_provisioner_change splice meta spliced_meta w = inr (r, w') ∧
    command r = "binary-checks-symbol-provisioner-change" ∧
    (prediction r = true ↔
     ∀ symbol prefix,
       (symbol, prefix) ∈ compress_symbol_set (found binary_symbols) →
       PyDict.get (compress_symbol_set (found spliced_symbols)) symbol = Some prefix).
Proof.
  intros Hb Hs. unfold check_symbol_provisioner_change,
    check_symbol_provisioner_change_body, mbind, M_bind, metadata_get.
  rewrite Hb, Hs. simpl.
  match goal with |- context [time_run_decorator ?r w] =>
    destruct (time_run_frame r w) as (t & w' & ->) end.
  eexists _, w'. split; [done|]. simpl. split; [done|].
  rewrite <-changed_nil.
  split; [apply bool_decide_eq_true_1|apply bool_decide_eq_true_2].
Qed.

(** C4.  For a dependency match the loop first appends the record of the
    missing-symbols check.  When the metadata has both "original:<path>" and
    "spliced:<path>", it then appends one missing-exports record, whose
    message lists, in their order, the symbols exported before the splice
    and not after it, and whose prediction is true exactly when that list is
    empty.  When either key is absent it appends nothing more for the
    match. *)
Theorem missing_exports_check {F : TimeRunFrame} splice binary_fullpath
    (binary_symbols spliced_symbols : SymbolMap) acc match_ w :
  let original_key := "original:" +:+ original match_ in
  let spliced_key := "spliced:" +:+ spliced match_ in
  let run := match_body splice binary_fullpath binary_symbols spliced_symbols
               acc match_ w in
  ∃ r1 w1,
    missing_previously_found_symbols binary_fullpath binary_symbols
      spliced_symbols match_ w = inr (r1, w1) ∧
    command r1 = "missing-previously-found-symbols" ∧
    (∀ original_exports spliced_exports : SymbolMap,
       metadata splice !! original_key = Some original_exports →
       metadata splice !! spliced_key = Some spliced_exports →
       ∃ r2 w2 missing_symbols,
         run = inr (acc ++ [r1; r2], w2) ∧
         command r2 = "missing-previously-found-exports" ∧
         message r2 = MsgList missing_symbols ∧
         missing_symbols = not_in_after (exported original_exports).*1
                             (exported spliced_exports).*1 ∧
         (∀ s, s ∈ missing_symbols ↔
               s ∈ (exported original_exports).*1 ∧
               s ∉ (exported spliced_exports).*1) ∧
         (prediction r2 = true ↔ missing_symbols = [])) ∧
    (metadata splice !! original_key = None ∨
     metadata splice !! spliced_key = None →
     run = inr (acc ++ [r1], w1)).
Proof.
  intros original_key spliced_key run. unfold run, match_body, mbind, M_bind.
  unfold missing_previously_found_symbols at 1 2 3.
  destruct (time_run_frame
              (missing_previously_found_symbols_body binary_fullpath
                 binary_symbols spliced_symbols match_) w) as (t & w1 & ->).
  eexists _, w1. split; [done|]. split; [done|]. split.
  - intros oe se Ho Hs. fold original_key spliced_key.
    rewrite bool_decide_false by (rewrite Ho, Hs; by intros [|]).
    unfold metadata_get. rewrite Ho, Hs. simpl.
    unfold missing_previously_found_exports.
    destruct (time_run_frame
                (missing_previously_found_exports_body binary_fullpath match_ oe se)
                w1) as (t' & w2 & ->).
    eexists _, w2, _. rewrite <-(assoc_L (++)). simpl.
    split_and!; [done..| |].
    + intros s. apply elem_of_not_in_after.
    + split; [apply bool_decide_eq_true_1|apply bool_decide_eq_true_2].
  - intros Hnone. fold original_key spliced_key.
    by rewrite bool_decide_true.
Qed.

(** C9.  When the splice's [different_libs] flag is set, [predict] raises
    [NotImplementedError]: it returns no splice, hence no records and no
    "symbols" bucket. *)
Theorem predict_different_libs_raises splice w :
  different_libs splice = true →
  predict splice w = inl NotImplementedError.
Proof. intros Hflag. unfold predict. by rewrite Hflag. Qed.

End symbols.

Section symbols_examples.
Import Example.

Lemma symbols_gate_single_record_witness :
  let bs := symbol_map [resolved "foo" "/orig/lib/libx.so.1"] ["bar"] [] in
  let r := Symbols.loader_missing_record "/orig/bin/app" bs in
  Symbols.metadata broken_matched !! "/orig/bin/app" = Some bs ∧
  missing bs ≠ [] ∧
  (∀ acc w,
     Symbols.binary_body broken_matched
       (Symbols.create_elfcall_deps_lookup broken_matched
          (Symbols.splice_spliced broken_matched))
       acc ("app", app_meta) w = inr (acc ++ [r], w)) ∧
  Symbols.prediction r = false ∧
  Symbols.splice_type r = "same_lib" ∧
  (∀ acc w,
     Symbols.binary_body broken_unmatched
       (Symbols.create_elfcall_deps_lookup broken_unmatched
          (Symbols.splice_spliced broken_unmatched))
       acc ("app", app_meta) w = inr (acc, w)).
Proof.
  intros bs r.
  split; [by vm_compute|]. split; [done|].
  destruct (symbols_gate_single_record broken_matched [] "app" app_meta [] bs)
    as (Hpresent & _); [by vm_compute..|done|].
  destruct Hpresent as (Hbody & _ & Hp & Ht & _); [by eexists|].
  split_and!; [done..|].
  destruct (symbols_gate_single_record broken_unmatched [] "app" app_meta [] bs)
    as (_ & Habsent); [by vm_compute..|done|].
  by destruct Habsent as (Hskip & _).
Defined.

(** C1 as stated fails: a binary with a non-empty [missing] list that the
    spliced lookup does not have is skipped, and no record is emitted. *)
Lemma symbols_gate_counterexample :
  ∃ bs splice',
    Symbols.create_elfcall_deps_lookup broken_unmatched
      (Symbols.splice_original broken_unmatched) = [("app", app_meta)] ∧
    Symbols.metadata broken_unmatched !! "/orig/bin/app" = Some bs ∧
    missing bs = ["bar"] ∧
    Symbols.predict broken_unmatched 0 = inr (splice', 0) ∧
    Symbols.predictions splice' !! "symbols" = None.
Proof. do 2 eexists. split_and!; by vm_compute. Qed.

Lemma example_time_run_frame : Symbols.TimeRunFrame.
Proof. intros r w. by exists (Some w), (S w). Qed.

Lemma missing_symbols_check_witness :
  ∃ r w' missing_symbols,
    Symbols.missing_previously_found_symbols "/orig/bin/app"
      (symbol_map [resolved "foo" "/orig/lib/libx.so.1";
                   resolved "bar" "/orig/lib/libx.so.1"] [] [])
      (symbol_map [resolved "bar" "/new/lib/libx.so.2"] [] [])
      {| Symbols.original := "/orig/lib/libx.so.1";
         Symbols.spliced := "/new/lib/libx.so.2" |} 0 = inr (r, w') ∧
    Symbols.message r = Symbols.MsgList missing_symbols ∧
    missing_symbols = ["foo"] ∧
    Symbols.prediction r = false.
Proof.
  destruct (missing_symbols_check (F := example_time_run_frame)
    "/orig/bin/app"
    (symbol_map [resolved "foo" "/orig/lib/libx.so.1";
                 resolved "bar" "/orig/lib/libx.so.1"] [] [])
    (symbol_map [resolved "bar" "/new/lib/libx.so.2"] [] [])
    {| Symbols.original := "/orig/lib/libx.so.1";
       Symbols.spliced := "/new/lib/libx.so.2" |} 0)
    as (r & w' & missing_symbols & Hrun & Hmsg & _).
  exists r, w', missing_symbols. split; [done|]. split; [done|].
  vm_compute in Hrun. injection Hrun as <- <-. by injection Hmsg as <-.
Defined.

(** C3 fails on the code at a symbol that the spliced binary no longer
    resolves: line 192 is a plain string, not an f-string, and the message
    does not name the symbol. *)
Theorem provisioner_change_missing_line :
  ∃ r w',
    Symbols.check_symbol_provisioner_change dropped_symbol app_meta new_app_meta 0
    = inr (r, w') ∧
    Symbols.prediction r = false ∧
    Symbols.message r
    = Symbols.MsgStr "Symbol provider changes: symbol {symbol} is missing in splice" ∧
    str_contains "foo"
      "Symbol provider changes: symbol {symbol} is missing in splice" = false.
Proof. do 2 eexists. split_and!; by vm_compute. Qed.

Lemma missing_exports_check_witness :
  ∃ r1 r2 w2,
    Symbols.match_body dropped_export "/orig/bin/app"
      (symbol_map [resolved "a" "/orig/lib/libx.so.1"] [] [])
      (symbol_map [resolved "a" "/new/lib/libx.so.2"] [] [])
      []
      {| Symbols.original := "/orig/lib/libx.so.1";
         Symbols.spliced := "/new/lib/libx.so.2" |} 0 = inr ([r1; r2], w2) ∧
    Symbols.message r2 = Symbols.MsgList ["b"] ∧
    Symbols.prediction r2 = false.
Proof.
  destruct (missing_exports_check (F := example_time_run_frame)
    dropped_export "/orig/bin/app"
    (symbol_map [resolved "a" "/orig/lib/libx.so.1"] [] [])
    (symbol_map [resolved "a" "/new/lib/libx.so.2"] [] [])
    []
    {| Symbols.original := "/orig/lib/libx.so.1";
       Symbols.spliced := "/new/lib/libx.so.2" |} 0)
    as (r1 & w1 & _ & _ & Hboth & _).
  destruct (Hboth (symbol_map [] [] ["a"; "b"; "c"]) (symbol_map [] [] ["a"; "c"]))
    as (r2 & w2 & missing_symbols & Hrun & _ & Hmsg & -> & _ & Hpred);
    [by vm_compute..|].
  exists r1, r2, w2. split; [done|]. split; [done|].
  destruct (Symbols.prediction r2); [|done].
  by destruct Hpred as [Hpred _]; specialize (Hpred eq_refl).
Defined.

Lemma predict_different_libs_raises_witness :
  Symbols.predict (symbols_splice true ["/orig/bin/app"] ["/new/bin/app"] []) 0
  = inl NotImplementedError.
Proof. by apply predict_different_libs_raises. Defined.

End symbols_examples.

(** ** libabigail.py *)

Section libabigail.
Context {T : Types} {U : Libabigail.Utils}.
Import Libabigail.

Lemma equivalent_body_run abicompat binary spliced_lib acc original w :
  ∃ res w',
    run_command (abicompat_command abicompat binary original spliced_lib) w = (res, w') ∧
    equivalent_body abicompat binary spliced_lib acc original w
    = inr (acc ++ [equivalent_record binary spliced_lib res], w').
Proof.
  unfold equivalent_body.
  destruct (run_command _ w) as [res w'] eqn:Hrun. by exists res, w'.
Qed.

Lemma different_body_run abicompat binary original replacement acc w :
  ∃ res w',
    run_command (abicompat_command abicompat binary original replacement) w = (res, w') ∧
    different_body abicompat binary original acc replacement w
    = inr (acc ++ [different_record binary original replacement res], w').
Proof.
  unfold different_body.
  destruct (run_command _ w) as [res w'] eqn:Hrun. by exists res, w'.
Qed.

(** Equivalence mode returns, and every record it emits is built by
    [equivalent_record] for one of the binaries and one of the spliced
    paths. *)
Lemma splice_equivalent_libs_records (Q : PredictionRecord → Prop)
    abicompat splice spliced_libs w :
  (∀ binary spliced_lib res,
     binary ∈ binaries splice → spliced_lib ∈ flatten_paths spliced_libs →
     Q (equivalent_record binary spliced_lib res)) →
  ∃ ps w',
    splice_equivalent_libs abicompat splice spliced_libs w
    = inr (store_predictions ps splice, w') ∧
    Forall Q ps.
Proof.
  intros HQ. unfold splice_equivalent_libs.
  match goal with |- context [for_each ?body (binaries splice) [] ] =>
    destruct (for_each_invariant (λ acc _, Forall Q acc) body (binaries splice)) with (acc := @nil PredictionRecord) (w := w)
      as (ps & w' & Hloop & Hps) end; [|done|].
  - intros acc binary w0 Hbinary Hacc.
    apply (for_each_invariant (λ acc _, Forall Q acc)); [|done].
    intros acc1 libset w1 Hlibset Hacc1.
    apply (for_each_invariant (λ acc _, Forall Q acc)); [|done].
    intros acc2 spliced_lib w2 Hlib Hacc2.
    apply (for_each_invariant (λ acc _, Forall Q acc)); [|done].
    intros acc3 original w3 _ Hacc3.
    destruct (equivalent_body_run abicompat binary spliced_lib acc3 original w3)
      as (res & w4 & _ & ->).
    eexists _, w4. split; [done|].
    apply Forall_app. split; [done|]. apply Forall_singleton, HQ; [done|].
    apply list_elem_of_bind. by exists libset.
  - exists ps, w'. unfold mbind, M_bind. by rewrite Hloop.
Qed.

(** Substitution mode returns, and every record it emits is built by
    [different_record]. *)
Lemma splice_different_libs_records (Q : PredictionRecord → Prop)
    abicompat splice original_libs replace_libs w :
  (∀ binary original replacement res,
     binary ∈ binaries splice → original ∈ flatten_paths original_libs →
     replacement ∈ flatten_paths replace_libs →
     Q (different_record binary original replacement res)) →
  ∃ ps w',
    splice_different_libs abicompat splice original_libs replace_libs w
    = inr (store_predictions ps splice, w') ∧
    Forall Q ps.
Proof.
  intros HQ. unfold splice_different_libs.
  match goal with |- context [for_each ?body (binaries splice) [] ] =>
    destruct (for_each_invariant (λ acc _, Forall Q acc) body (binaries splice)) with (acc := @nil PredictionRecord) (w := w)
      as (ps & w' & Hloop & Hps) end; [|done|].
  - intros acc binary w0 Hbinary Hacc.
    apply (for_each_invariant (λ acc _, Forall Q acc)); [|done].
    intros acc1 original w1 Horiginal Hacc1.
    apply (for_each_invariant (λ acc _, Forall Q acc)); [|done].
    intros acc2 replacement w2 Hreplacement Hacc2.
    destruct (different_body_run abicompat binary original replacement acc2 w2)
      as (res & w3 & _ & ->).
    eexists _, w3. split; [done|].
    apply Forall_app. split; [done|]. by apply Forall_singleton, HQ.
  - exists ps, w'. unfold mbind, M_bind. by rewrite Hloop.
Qed.

Lemma verdict_spec res :
  verdict res = true ↔ cmd_message res = "" ∧ cmd_return_code res = 0%Z.
Proof.
  unfold verdict. rewrite andb_true_iff, !bool_decide_eq_true. done.
Qed.

(** C5.  Each invocation of the pairwise comparator, in equivalence mode and
    in substitution mode, appends one record that carries the captured
    message and return code and whose prediction is true if and only if the
    message is the empty string and the return code is 0; both modes return,
    and every record they store satisfies this. *)
Theorem pairwise_prediction_iff_clean abicompat splice w :
  let ok r := prediction r = true ↔ message r = "" ∧ return_code r = 0%Z in
  (∀ binary spliced_lib acc original w0, ∃ res w' r,
     run_command (abicompat_command abicompat binary original spliced_lib) w0 = (res, w') ∧
     equivalent_body abicompat binary spliced_lib acc original w0 = inr (acc ++ [r], w') ∧
     message r = cmd_message res ∧ return_code r = cmd_return_code res ∧ ok r) ∧
  (∀ binary original acc replacement w0, ∃ res w' r,
     run_command (abicompat_command abicompat binary original replacement) w0 = (res, w') ∧
     different_body abicompat binary original acc replacement w0 = inr (acc ++ [r], w') ∧
     message r = cmd_message res ∧ return_code r = cmd_return_code res ∧ ok r) ∧
  (∀ spliced_libs, ∃ ps w',
     splice_equivalent_libs abicompat splice spliced_libs w
     = inr (store_predictions ps splice, w') ∧ Forall ok ps) ∧
  (∀ original_libs replace_libs, ∃ ps w',
     splice_different_libs abicompat splice original_libs replace_libs w
     = inr (store_predictions ps splice, w') ∧ Forall ok ps).
Proof.
  intros ok. split_and!.
  - intros binary spliced_lib acc original w0.
    destruct (equivalent_body_run abicompat binary spliced_lib acc original w0)
      as (res & w' & Hrun & Hbody).
    exists res, w', (equivalent_record binary spliced_lib res).
    split_and!; [done..|]. apply verdict_spec.
  - intros binary original acc replacement w0.
    destruct (different_body_run abicompat binary original replacement acc w0)
      as (res & w' & Hrun & Hbody).
    exists res, w', (different_record binary original replacement res).
    split_and!; [done..|]. apply verdict_spec.
  - intros spliced_libs. apply splice_equivalent_libs_records.
    intros binary spliced_lib res _ _. apply verdict_spec.
  - intros original_libs replace_libs. apply splice_different_libs_records.
    intros binary original replacement res _ _ _. apply verdict_spec.
Qed.

(** C10.  In equivalence mode the comparator is run on the original-tree
    candidate, and the record appended for that run has the spliced path in
    both its "lib" and its "original_lib" field, whatever the candidate was,
    so not the candidate when the two differ; the mode returns, and every
    record it stores has "original_lib" equal to its "lib", which is one of
    the spliced paths. *)
Theorem equivalent_original_lib_is_spliced abicompat splice spliced_libs w :
  (∀ binary spliced_lib acc original w0, ∃ res w' r,
     run_command (abicompat_command abicompat binary original spliced_lib) w0 = (res, w') ∧
     equivalent_body abicompat binary spliced_lib acc original w0 = inr (acc ++ [r], w') ∧
     lib r = spliced_lib ∧ original_lib r = Some spliced_lib ∧
     (original ≠ spliced_lib → original_lib r ≠ Some original)) ∧
  ∃ ps w',
    splice_equivalent_libs abicompat splice spliced_libs w
    = inr (store_predictions ps splice, w') ∧
    Forall (λ r, original_lib r = Some (lib r) ∧ lib r ∈ flatten_paths spliced_libs) ps.
Proof.
  split.
  - intros binary spliced_lib acc original w0.
    destruct (equivalent_body_run abicompat binary spliced_lib acc original w0)
      as (res & w' & Hrun & Hbody).
    exists res, w', (equivalent_record binary spliced_lib res).
    split_and!; [done..|]. simpl. by intros Hne [= ->].
  - apply splice_equivalent_libs_records.
    intros binary spliced_lib res _ Hlib. by split.
Qed.

End libabigail.

Section libabigail_examples.
Import Example.

(** The candidate compared is the original library; the record names the
    spliced one in its place. *)
Example version_bump_original_lib :
  ∃ r splice',
    Libabigail.originals_for ["/orig/lib/libx.so.1"] "/new/lib/libx.so.2"
    = ["/orig/lib/libx.so.1"] ∧
    Libabigail.predict None version_bump 0 = inr (splice', 1) ∧
    Libabigail.predictions splice' !! "libabigail" = Some [r] ∧
    Libabigail.lib r = "/new/lib/libx.so.2" ∧
    Libabigail.original_lib r = Some "/new/lib/libx.so.2".
Proof. do 2 eexists. split_and!; by vm_compute. Qed.

End libabigail_examples.

(** ** smeagle/__init__.py *)

Section smeagle.
Context {T : Types} {L : Smeagle.Tools}.
Import Smeagle.

Lemma path_exists_true (files : gmap string Node) path :
  path_exists files path = true ↔ is_Some (files !! path).
Proof. unfold path_exists. apply bool_decide_eq_true. Qed.

Lemma path_exists_false (files : gmap string Node) path :
  path_exists files path = false ↔ files !! path = None.
Proof.
  unfold path_exists. rewrite bool_decide_eq_false. split.
  - intros Hnone. by apply eq_None_not_Some.
  - intros -> []. done.
Qed.

(** The three ways in which [generate_cle_data] returns. *)
Lemma generate_cle_data_hit lib prefix st :
  path_exists (fs st) (cache_key_of (cache_dir st) lib prefix) = true →
  generate_cle_data lib prefix st
  = inr (Some (cache_key_of (cache_dir st) lib prefix), st).
Proof. intros Hhit. unfold generate_cle_data. by rewrite Hhit. Qed.

Lemma generate_cle_data_miss lib prefix st :
  let key := cache_key_of (cache_dir st) lib prefix in
  let res := get_smeagle_data (fs st) lib (world st) in
  let st' := set_world res.2 (set_trace (trace st ++ [Extract lib]) st) in
  path_exists (fs st) key = false →
  generate_cle_data lib prefix st =
  match extracted res.1 with
  | Some d => inr (Some key, set_fs (write_json d key (mkdir_p (dirname key) (fs st))) st')
  | None => inr (None, st')
  end.
Proof.
  intros key res st' Hmiss. unfold generate_cle_data. fold key. rewrite Hmiss.
  subst res st'. by destruct (get_smeagle_data (fs st) lib (world st)) as [res w'].
Qed.


(** *** What the predictor keeps of the state *)

Lemma keeps_cache_refl st : keeps_cache st st.
Proof. by split_and!. Qed.

Lemma keeps_cache_trans st0 st1 st2 :
  keeps_cache st0 st1 → keeps_cache st1 st2 → keeps_cache st0 st2.
Proof.
  intros (He1 & Hc1 & Hf1) (He2 & Hc2 & Hf2). split_and!; [congruence..|].
  intros path Hpath. by apply Hf2, Hf1.
Qed.

Lemma only_extracts_refl st : only_extracts st st.
Proof.
  split_and!; [apply keeps_cache_refl|done..|].
  exists []. split; [done|]. by rewrite (right_id_L [] (++)).
Qed.

Lemma only_extracts_trans st0 st1 st2 :
  only_extracts st0 st1 → only_extracts st1 st2 → only_extracts st0 st2.
Proof.
  intros (Hk1 & Hp1 & Hs1 & es1 & Hes1 & Ht1) (Hk2 & Hp2 & Hs2 & es2 & Hes2 & Ht2).
  split_and!; [by eapply keeps_cache_trans|congruence..|].
  exists (es1 ++ es2). split; [by apply Forall_app|].
  by rewrite Ht2, Ht1, (assoc_L (++)).
Qed.

Lemma mkdir_one_keeps d (files : gmap string Node) other :
  is_Some (files !! other) → is_Some (mkdir_one d files !! other).
Proof.
  intros Hother. unfold mkdir_one. destruct (files !! d) eqn:Hd; [done|].
  destruct (decide (d = other)) as [->|Hne].
  - rewrite lookup_insert_eq. by eexists.
  - by rewrite lookup_insert_ne.
Qed.

Lemma mkdir_one_creates d (files : gmap string Node) :
  is_Some (mkdir_one d files !! d).
Proof.
  unfold mkdir_one. destruct (files !! d) eqn:Hd.
  - rewrite Hd. by eexists.
  - rewrite lookup_insert_eq. by eexists.
Qed.

Lemma mkdir_p_keeps path (files : gmap string Node) other :
  is_Some (files !! other) → is_Some (mkdir_p path files !! other).
Proof.
  intros Hother. unfold mkdir_p. destruct (String.eqb path ""); [done|].
  induction (ancestors_from "" path ++ [path]) as [|d ds IH]; simpl; [done|].
  by apply mkdir_one_keeps.
Qed.

Lemma mkdir_p_creates path (files : gmap string Node) :
  String.eqb path "" = false → is_Some (mkdir_p path files !! path).
Proof.
  intros Hpath. unfold mkdir_p. rewrite Hpath.
  assert (Hin : path ∈ ancestors_from "" path ++ [path]).
  { apply elem_of_app. right. left. }
  induction (ancestors_from "" path ++ [path]) as [|d ds IH]; simpl.
  { by apply elem_of_nil in Hin. }
  apply elem_of_cons in Hin as [<-|Hin].
  - apply mkdir_one_creates.
  - by apply mkdir_one_keeps, IH.
Qed.

Lemma insert_keeps (files : gmap string Node) path node other :
  is_Some (files !! other) → is_Some (<[path := node]> files !! other).
Proof.
  intros Hother. destruct (decide (path = other)) as [->|Hne].
  - rewrite lookup_insert_eq. by eexists.
  - by rewrite lookup_insert_ne.
Qed.

(** [rmtree] removes the root and everything below it. *)
Lemma rmtree_within root (files : gmap string Node) path :
  within root path = true → rmtree root files !! path = None.
Proof.
  intros Hin. unfold rmtree. apply map_lookup_filter_None. right.
  intros node _ Hnot. simpl in Hnot. by rewrite Hin in Hnot.
Qed.

Lemma within_refl root : within root root = true.
Proof. unfold within. by rewrite String.eqb_refl. Qed.

(** Fact generation returns, and only generates facts. *)
Lemma generate_cle_data_only_extracts lib_path prefix st :
  ∃ r st', generate_cle_data lib_path prefix st = inr (r, st') ∧ only_extracts st st'.
Proof.
  destruct (path_exists (fs st) (cache_key_of (cache_dir st) lib_path prefix)) eqn:Hexists.
  - rewrite (generate_cle_data_hit _ _ _ Hexists). eexists _, st.
    split; [done|apply only_extracts_refl].
  - rewrite (generate_cle_data_miss _ _ _ Hexists).
    destruct (extracted _) as [d|]; eexists _, _; (split; [reflexivity|]).
    + split_and!; [split_and!; [done..|]|done..|].
      * intros path Hpath. simpl. by apply insert_keeps, mkdir_p_keeps.
      * exists [Extract lib_path]. split; [|done]. by apply Forall_singleton.
    + split_and!; [split_and!; done|done..|].
      exists [Extract lib_path]. split; [|done]. by apply Forall_singleton.
Qed.

Lemma found_body_only_extracts acc item st :
  is_Some (lib item.2) →
  ∃ acc' st', found_body acc item st = inr (acc', st') ∧ only_extracts st st'.
Proof.
  destruct acc as [symbols deps], item as [symbol meta]. simpl.
  intros [l Hl]. rewrite Hl.
  destruct (is_system_path (realpath l)).
  { eexists _, st. split; [done|apply only_extracts_refl]. }
  unfold mbind, M_bind.
  destruct (generate_cle_data_only_extracts (realpath l) "smeagle" st)
    as (r & st' & -> & Hst').
  destruct r as [cache_key|]; by eexists _, st'.
Qed.

Lemma found_loop_only_extracts items acc st :
  Forall (λ sx : string * FoundMeta, is_Some (lib sx.2)) items →
  ∃ acc' st', for_each found_body items acc st = inr (acc', st') ∧ only_extracts st st'.
Proof.
  intros Hitems.
  destruct (for_each_invariant (λ _ st', only_extracts st st') found_body items)
    with (acc := acc) (w := st) as (acc' & st' & Hrun & Hst').
  - intros acc0 item st0 Hitem Hst0.
    destruct (found_body_only_extracts acc0 item st0) as (acc1 & st1 & Hbody & Hst1).
    { by apply (proj1 (Forall_forall _ _) Hitems). }
    exists acc1, st1. split; [done|]. by eapply only_extracts_trans.
  - apply only_extracts_refl.
  - by exists acc', st'.
Qed.

(** An entry of the found map without a "lib" key makes the walk over the
    dependencies raise [KeyError]. *)
Lemma found_loop_raises items acc st :
  Exists (λ sx : string * FoundMeta, lib sx.2 = None) items →
  for_each found_body items acc st = inl (KeyError "lib").
Proof.
  intros Hitems. revert acc st.
  induction items as [|item items IH]; intros acc st.
  { by apply Exists_nil in Hitems. }
  simpl. unfold mbind, M_bind.
  destruct (lib item.2) as [l|] eqn:Hl.
  - apply Exists_cons in Hitems as [Hhd|Htl]; [congruence|].
    destruct (found_body_only_extracts acc item st) as (acc' & st' & -> & _).
    { rewrite Hl. by eexists. }
    by apply IH.
  - destruct acc as [symbols deps], item as [symbol meta]. simpl in *.
    by rewrite Hl.
Qed.

(** A found entry without a "lib" key makes [test_lib] raise [KeyError]
    at line 108, before the comparator is reached. *)
Lemma test_lib_found_without_lib splice lib_path facts_path (m : SymbolMap) st :
  metadata splice !! lib_path = Some m →
  missing m = [] →
  Exists (λ sx : string * FoundMeta, lib sx.2 = None) (found m) →
  test_lib splice lib_path facts_path st = inl (KeyError "lib").
Proof.
  intros Hm Hmissing Hfound. unfold test_lib, mbind, M_bind, metadata_get.
  rewrite Hm. simpl. rewrite bool_decide_false by (by intros []).
  unfold modify. simpl. by rewrite found_loop_raises.
Qed.

(** C7.  Let [test_lib] be called on a library whose symbol map is in the
    metadata, with the "smeagle" bucket in place.  When the map has missing
    symbols, the call appends exactly one record, with [return_code] -1 and
    [prediction] false for that library, and changes nothing else: no
    extractor or comparator event is added to the trace.  When it has none,
    the call does not always reach the comparison.  With a found entry that
    has no "lib" key it raises [KeyError] at line 108, and no record is
    appended.  With every found entry naming its library, it gathers the
    facts of the dependencies, which only adds extractor events, and then
    opens the [.asp] file beside the facts: if that file can be opened the
    comparator is invoked once, on the given facts and the gathered
    dependencies, and its record is appended; otherwise [open] raises. *)
Theorem test_lib_gate splice lib_path facts_path (m : SymbolMap) st l :
  metadata splice !! lib_path = Some m →
  predictions st !! "smeagle" = Some l →
  (missing m ≠ [] →
     ∃ r,
       test_lib splice lib_path facts_path st
       = inr ((), set_predictions (<["smeagle" := l ++ [Fail r]]> (predictions st)) st) ∧
       fail_return_code r = (-1)%Z ∧ fail_prediction r = false ∧
       fail_lib r = lib_path) ∧
  (missing m = [] →
     Exists (λ sx : string * FoundMeta, lib sx.2 = None) (found m) →
     test_lib splice lib_path facts_path st = inl (KeyError "lib")) ∧
  (missing m = [] →
     Forall (λ sx : string * FoundMeta, is_Some (lib sx.2)) (found m) →
     ∃ symbols deps st1 events,
       for_each found_body (found m) (∅, [])
         (set_stats (<[lib_path := ∅]> (stats st)) st) = inr ((symbols, deps), st1) ∧
       Forall is_extract events ∧ trace st1 = trace st ++ events ∧
       if can_open (replace_json facts_path) (fs st1)
       then ∃ st' res seconds,
              test_lib splice lib_path facts_path st = inr ((), st') ∧
              trace st'
              = trace st ++ events
                ++ [Compare facts_path deps.*1 (PyDict.set deps facts_path symbols)] ∧
              predictions st' !! "smeagle" = Some (l ++ [Compared res seconds])
       else test_lib splice lib_path facts_path st
            = inl (OSError (replace_json facts_path))).
Proof.
  intros Hm Hbucket. split_and!.
  - intros Hmissing. unfold test_lib, mbind, M_bind, metadata_get.
    rewrite Hm. simpl. rewrite bool_decide_true by done.
    exists (missing_record lib_path (missing m)).
    unfold append_prediction. by rewrite Hbucket.
  - intros Hmissing Hfound. by eapply test_lib_found_without_lib.
  - intros Hmissing Hfound. unfold test_lib, mbind, M_bind, metadata_get.
    rewrite Hm. simpl. rewrite bool_decide_false by (by intros []).
    unfold modify. simpl.
    set (st0 := set_stats _ st).
    destruct (found_loop_only_extracts (found m) (∅, []) st0 Hfound)
      as ([symbols deps] & st1 & Hwalk & (_ & Hpreds & Hstats & events & Hevents & Htrace)).
    exists symbols, deps, st1, events. rewrite Hwalk.
    split_and!; [done..|].
    simpl. unfold record_total. rewrite Hstats. simpl. rewrite lookup_insert_eq.
    unfold run_comparison, open_w. simpl.
    destruct (can_open (replace_json facts_path) (fs st1)); [|done].
    simpl.
    destruct (time (world st1)) as [t1 w1].
    destruct (compatible_test _ _ _ _ w1) as [[res text] w2].
    destruct (time w2) as [t2 w3].
    unfold append_prediction. simpl. rewrite Hpreds. simpl. rewrite Hbucket.
    eexists _, res, (time_sub t2 t1).
    split; [reflexivity|]. simpl. rewrite Htrace. simpl.
    split; [by rewrite <-(assoc_L (++))|]. by rewrite lookup_insert_eq.
Qed.

(** *** The cache directory *)

Lemma found_body_keeps_cache acc item st acc' st' :
  found_body acc item st = inr (acc', st') → keeps_cache st st'.
Proof.
  destruct (lib item.2) as [l|] eqn:Hl.
  - destruct (found_body_only_extracts acc item st) as (acc1 & st1 & -> & Hst1).
    { rewrite Hl. by eexists. }
    intros [= <- <-]. apply Hst1.
  - destruct acc as [symbols deps], item as [symbol meta]. simpl in *.
    by rewrite Hl.
Qed.

Lemma test_lib_keeps_cache splice lib_path facts_path st st' :
  test_lib splice lib_path facts_path st = inr ((), st') → keeps_cache st st'.
Proof.
  unfold test_lib. intros Hrun.
  apply bind_inr in Hrun as (m' & st0 & Hm & Hrun).
  unfold metadata_get in Hm. destruct (metadata splice !! lib_path) as [m|]; [|done].
  injection Hm as <- <-.
  destruct (bool_decide (missing m ≠ [])).
  { unfold append_prediction in Hrun.
    destruct (predictions st !! "smeagle"); [|done].
    injection Hrun as <-. by split_and!. }
  apply bind_inr in Hrun as ([] & st1 & Hmodify & Hrun).
  injection Hmodify as <-.
  apply bind_inr in Hrun as (acc & st2 & Hloop & Hrun).
  apply bind_inr in Hrun as ([] & st3 & Htotal & Hrun).
  assert (keeps_cache st st2) as Hst2.
  { eapply (for_each_preserves (λ _ st', keeps_cache st st') found_body (found m));
      [| |exact Hloop].
    - intros a b c d e _ Hk Hb. eapply keeps_cache_trans; [exact Hk|].
      by eapply found_body_keeps_cache.
    - by split_and!. }
  assert (keeps_cache st2 st3) as Hst3.
  { unfold record_total in Htotal. destruct (stats st2 !! lib_path); [|done].
    injection Htotal as <-. by split_and!. }
  apply (keeps_cache_trans _ _ _ Hst2), (keeps_cache_trans _ _ _ Hst3).
  unfold run_comparison, open_w in Hrun. simpl in Hrun.
  destruct (can_open _ (fs st3)); [|done]. simpl in Hrun.
  destruct (time (world st3)) as [t1 w1].
  destruct (compatible_test _ _ _ _ w1) as [[res text] w2].
  destruct (time w2) as [t2 w3].
  unfold append_prediction in Hrun. simpl in Hrun.
  destruct (predictions st3 !! "smeagle"); [|done].
  injection Hrun as <-. split_and!; [done..|].
  intros path Hpath. simpl. unfold write_text. by do 2 apply insert_keeps.
Qed.

Lemma spliced_body_keeps_cache spliced lib_path st spliced' st' :
  spliced_body spliced lib_path st = inr (spliced', st') → keeps_cache st st'.
Proof.
  unfold spliced_body, mbind, M_bind.
  destruct (generate_cle_data_only_extracts lib_path "smeagle" st)
    as (r & st1 & -> & Hst1 & _).
  destruct r; by intros [= <- <-].
Qed.

Lemma path_join_nonempty a : String.eqb (path_join a "spliced-cache") "" = false.
Proof.
  unfold path_join. simpl.
  destruct a as [|c a]; [done|]. by destruct (_ || _).
Qed.

(** The choice of the cache directory: a temporary one, to be cleaned up,
    only for an empty setting; the default under [gettempdir()] and a
    configured path exist afterwards and are not to be cleaned up. *)
Lemma setup_cache_spec st :
  ∃ cleanup st1,
    setup_cache st = inr (cleanup, st1) ∧
    match environ st !! "SPLICED_SMEAGLE_CACHE_DIR" with
    | Some configured =>
        if String.eqb configured ""
        then cleanup = true ∧ cache_dir st1 = (tempdir (fs st) (world st)).1.1
        else cleanup = false ∧ cache_dir st1 = configured ∧
             path_exists (fs st1) configured = true
    | None =>
        cleanup = false ∧ cache_dir st1 = path_join gettempdir "spliced-cache" ∧
        path_exists (fs st1) (cache_dir st1) = true
    end.
Proof.
  unfold setup_cache.
  destruct (environ st !! "SPLICED_SMEAGLE_CACHE_DIR") as [configured|]; simpl.
  - destruct (String.eqb configured "") eqn:Hconfigured; simpl.
    + destruct (tempdir (fs st) (world st)) as [[tmp fs'] w']. by eexists _, _.
    + destruct (path_exists (fs st) configured) eqn:Hexists; simpl.
      * by eexists _, _.
      * eexists _, _. split; [done|]. split_and!; [done..|]. simpl.
        by apply path_exists_true, mkdir_p_creates.
  - rewrite path_join_nonempty. simpl.
    destruct (path_exists (fs st) (path_join gettempdir "spliced-cache")) eqn:Hexists;
      simpl.
    + by eexists _, _.
    + eexists _, _. split; [done|]. split_and!; [done..|]. simpl.
      apply path_exists_true, mkdir_p_creates, path_join_nonempty.
Qed.

(** C8, as amended.  In a run of [predict] that has spliced libraries and
    completes: when the cache-directory variable is unset, the default under
    the temporary directory is the cache directory and it still exists at the
    end; when the variable is set to a non-empty path, that path is the cache
    directory and it still exists at the end; only when the variable is set
    to the empty string is the cache directory the one made by
    [utils.tempdir()], and it does not exist at the end. *)
Theorem cache_cleanup splice st st' :
  spliced splice ≠ [] →
  predict splice st = inr ((), st') →
  match environ st !! "SPLICED_SMEAGLE_CACHE_DIR" with
  | Some configured =>
      if String.eqb configured ""
      then cache_dir st' = (tempdir (fs st) (world st)).1.1 ∧
           path_exists (fs st') (cache_dir st') = false
      else cache_dir st' = configured ∧ path_exists (fs st') configured = true
  | None =>
      cache_dir st' = path_join gettempdir "spliced-cache" ∧
      path_exists (fs st') (cache_dir st') = true
  end.
Proof.
  intros Hspliced Hrun. unfold predict in Hrun.
  destruct (spliced splice) as [|lib0 libs] eqn:Hlibs; [done|].
  apply bind_inr in Hrun as (cleanup & st1 & Hsetup & Hrun).
  apply bind_inr in Hrun as ([] & st2 & Hmodify & Hrun).
  injection Hmodify as <-.
  apply bind_inr in Hrun as (table & st3 & Hgenerate & Hrun).
  apply bind_inr in Hrun as ([] & st4 & Htest & Hcleanup).
  assert (keeps_cache st1 st4) as (_ & Hdir & Hfiles).
  { apply (keeps_cache_trans _ st3).
    - eapply (for_each_preserves (λ _ st', keeps_cache st1 st') spliced_body);
        [| |exact Hgenerate].
      + intros a b c d e _ Hk Hb. eapply keeps_cache_trans; [exact Hk|].
        by eapply spliced_body_keeps_cache.
      + by split_and!.
    - eapply (for_each_preserves (λ _ st', keeps_cache st3 st'));
        [| |exact Htest].
      + intros [] [lib_path facts_path] c [] e _ Hk Hb.
        eapply keeps_cache_trans; [exact Hk|]. by eapply test_lib_keeps_cache.
      + apply keeps_cache_refl. }
  destruct (setup_cache_spec st) as (cleanup' & st1' & Hsetup' & Hspec).
  rewrite Hsetup in Hsetup'. injection Hsetup' as <- <-.
  unfold cleanup_cache in Hcleanup.
  destruct (environ st !! "SPLICED_SMEAGLE_CACHE_DIR") as [configured|].
  - destruct (String.eqb configured "").
    + destruct Hspec as [-> Htmp]. simpl in Hcleanup.
      destruct (path_exists (fs st4) (cache_dir st4)) eqn:Hexists;
        injection Hcleanup as <-; simpl.
      * split; [congruence|]. apply path_exists_false, rmtree_within, within_refl.
      * split; [congruence|done].
    + destruct Hspec as (-> & Hconfigured & Hexists). simpl in Hcleanup.
      injection Hcleanup as <-. split; [congruence|].
      by apply path_exists_true, Hfiles, path_exists_true.
  - destruct Hspec as (-> & Hdefault & Hexists). simpl in Hcleanup.
    injection Hcleanup as <-. split; [congruence|].
    rewrite Hdir. by apply path_exists_true, Hfiles, path_exists_true.
Qed.

End smeagle.

Section smeagle_examples.
Import Example.



Lemma test_lib_gate_witness :
  (∃ r st',
     Smeagle.test_lib unresolved_symbol "/new/lib/libx.so.2"
       "/var/cache/spliced/smeagle-new/lib/libx.so.2.json" (smeagle_state [])
     = inr ((), st') ∧
     Smeagle.predictions st' !! "smeagle" = Some [Smeagle.Fail r] ∧
     Smeagle.trace st' = [] ∧
     Smeagle.fail_return_code r = (-1)%Z ∧ Smeagle.fail_prediction r = false) ∧
  Smeagle.test_lib Scenario.entry_without_lib "/new/lib/libx.so.2"
    "/var/cache/spliced/smeagle-new/lib/libx.so.2.json" Scenario.facts_ready
  = inl (KeyError "lib").
Proof.
  split.
  - destruct (test_lib_gate unresolved_symbol "/new/lib/libx.so.2"
                "/var/cache/spliced/smeagle-new/lib/libx.so.2.json"
                (symbol_map [resolved "foo" "/opt/lib/libz.so.1"] ["baz"] ["bar"])
                (smeagle_state []) [])
      as (Hgate & _); [by vm_compute..|].
    destruct Hgate as (r & Hrun & Hcode & Hprediction & _); [done|].
    eexists r, _. split; [exact Hrun|]. simpl.
    split; [by rewrite lookup_insert_eq|]. done.
  - destruct (test_lib_gate Scenario.entry_without_lib "/new/lib/libx.so.2"
                "/var/cache/spliced/smeagle-new/lib/libx.so.2.json"
                (symbol_map [resolved "foo" "/opt/lib/libz.so.1";
                             ("bar", {| lib := None |})] [] [])
                Scenario.facts_ready [])
      as (_ & Hraises & _); [by vm_compute..|].
    apply Hraises; [done|]. apply Exists_cons. right. apply Exists_cons. by left.
Defined.

Lemma cache_cleanup_witness :
  ∃ st',
    Smeagle.predict one_dependency (smeagle_state [("SPLICED_SMEAGLE_CACHE_DIR", "")])
    = inr ((), st') ∧
    Smeagle.cache_dir st' = "/tmp/tmp0" ∧
    Smeagle.path_exists (Smeagle.fs st') (Smeagle.cache_dir st') = false.
Proof.
  destruct (Smeagle.predict one_dependency
              (smeagle_state [("SPLICED_SMEAGLE_CACHE_DIR", "")]))
    as [e|[[] st']] eqn:Hrun; [by vm_compute in Hrun|].
  exists st'. split; [done|].
  pose proof (cache_cleanup one_dependency
                (smeagle_state [("SPLICED_SMEAGLE_CACHE_DIR", "")]) st'
                ltac:(done) Hrun) as Hend.
  assert (Smeagle.environ (smeagle_state [("SPLICED_SMEAGLE_CACHE_DIR", "")])
          !! "SPLICED_SMEAGLE_CACHE_DIR" = Some "") as Henv by (by vm_compute).
  rewrite Henv in Hend. exact Hend.
Defined.

(** C8 as stated fails: with the variable unset the default directory under
    the temporary directory is used, and it is still there, with the facts
    in it, when the run ends. *)
Lemma cache_cleanup_counterexample :
  ∃ st',
    Smeagle.environ (smeagle_state []) !! "SPLICED_SMEAGLE_CACHE_DIR" = None ∧
    Smeagle.predict one_dependency (smeagle_state []) = inr ((), st') ∧
    Smeagle.cache_dir st' = "/tmp/spliced-cache" ∧
    Smeagle.path_exists (Smeagle.fs st') "/tmp/spliced-cache" = true ∧
    Smeagle.fs st' !! "/tmp/spliced-cache/smeagle-new/lib/libx.so.2.json"
    = Some (Smeagle.JsonFile "facts of /new/lib/libx.so.2").
Proof.
  destruct (Smeagle.predict one_dependency (smeagle_state []))
    as [e|[[] st']] eqn:Hrun; vm_compute in Hrun; [done|].
  exists st'. split; [by vm_compute|]. split; [done|].
  injection Hrun as <-. split_and!; by vm_compute.
Qed.

(** A library without missing symbols, whose found entries name their
    libraries and whose facts are in the cache, goes on to the comparison. *)
Example test_lib_compares :
  ∃ st' B_set deps res seconds,
    Smeagle.test_lib one_dependency "/new/lib/libx.so.2"
      "/var/cache/spliced/smeagle-new/lib/libx.so.2.json" Scenario.facts_ready
    = inr ((), st') ∧
    Smeagle.trace st'
    = [Smeagle.Extract "/opt/lib/libz.so.1";
       Smeagle.Compare "/var/cache/spliced/smeagle-new/lib/libx.so.2.json" B_set deps] ∧
    Smeagle.predictions st' !! "smeagle" = Some [Smeagle.Compared res seconds].
Proof.
  destruct (Smeagle.test_lib one_dependency "/new/lib/libx.so.2"
              "/var/cache/spliced/smeagle-new/lib/libx.so.2.json" Scenario.facts_ready)
    as [e|[[] st']] eqn:Hrun; vm_compute in Hrun; [done|].
  injection Hrun as <-. eexists _, _, _, _, _.
  split; [reflexivity|]. split; [vm_compute; reflexivity|]. vm_compute; reflexivity.
Qed.

End smeagle_examples.

(** ** Dictionaries *)

Lemma pydict_get_set_eq {V} (d : list (string * V)) k v :
  PyDict.get (PyDict.set d k v) k = Some v.
Proof.
  induction d as [|[k' v'] d IH]; simpl.
  - by rewrite decide_True.
  - destruct (decide (k' = k)) as [->|Hne]; simpl.
    + by rewrite decide_True.
    + by rewrite decide_False.
Qed.

Lemma pydict_get_set_ne {V} (d : list (string * V)) k k' v :
  k ≠ k' → PyDict.get (PyDict.set d k v) k' = PyDict.get d k'.
Proof.
  intros Hne. induction d as [|[k0 v0] d IH]; simpl.
  - by rewrite decide_False.
  - destruct (decide (k0 = k)) as [->|Hne0]; simpl.
    + by rewrite !decide_False.
    + destruct (decide (k0 = k')); [done|apply IH].
Qed.

Lemma pydict_get_None {V} (d : list (string * V)) k :
  PyDict.get d k = None ↔ k ∉ d.*1.
Proof.
  induction d as [|[k' v'] d IH]; simpl.
  - split; [intros _; apply not_elem_of_nil|done].
  - destruct (decide (k' = k)) as [->|Hne].
    + split; [done|]. intros Hnot. destruct Hnot. left.
    + rewrite IH, not_elem_of_cons. naive_solver.
Qed.

Lemma pydict_get_Some_elem_of {V} (d : list (string * V)) k v :
  PyDict.get d k = Some v → (k, v) ∈ d.
Proof.
  induction d as [|[k' v'] d IH]; simpl; [done|].
  destruct (decide (k' = k)) as [->|Hne].
  - intros [= ->]. left.
  - intros Hget. right. by apply IH.
Qed.

Lemma pydict_elem_of_get {V} (d : list (string * V)) k v :
  NoDup d.*1 → (k, v) ∈ d → PyDict.get d k = Some v.
Proof.
  induction d as [|[k' v'] d IH]; simpl.
  - intros _ Hin. by apply elem_of_nil in Hin.
  - intros Hnd Hin. apply NoDup_cons in Hnd as [Hnotin Hnd].
    apply elem_of_cons in Hin as [[= <- <-]|Hin].
    + by rewrite decide_True.
    + destruct (decide (k' = k)) as [->|Hne]; [|by apply IH].
      destruct Hnotin. apply list_elem_of_fmap. by exists (k, v).
Qed.

Lemma pydict_set_keys {V} (d : list (string * V)) k v k' :
  k' ∈ (PyDict.set d k v).*1 ↔ k' = k ∨ k' ∈ d.*1.
Proof.
  induction d as [|[k0 v0] d IH]; simpl.
  - rewrite list_elem_of_singleton, elem_of_nil. naive_solver.
  - destruct (decide (k0 = k)) as [->|Hne]; simpl.
    + rewrite !elem_of_cons. naive_solver.
    + rewrite !elem_of_cons, IH. naive_solver.
Qed.

Lemma pydict_set_NoDup {V} (d : list (string * V)) k v :
  NoDup d.*1 → NoDup (PyDict.set d k v).*1.
Proof.
  induction d as [|[k0 v0] d IH]; simpl.
  - intros _. apply NoDup_singleton.
  - intros Hnd. apply NoDup_cons in Hnd as [Hnotin Hnd].
    destruct (decide (k0 = k)) as [->|Hne]; simpl.
    + by apply NoDup_cons.
    + apply NoDup_cons. split; [|by apply IH].
      rewrite pydict_set_keys. naive_solver.
Qed.

Lemma pydict_set_elem_of {V} (d : list (string * V)) k v k' v' :
  (k', v') ∈ PyDict.set d k v → (k' = k ∧ v' = v) ∨ (k', v') ∈ d.
Proof.
  induction d as [|[k0 v0] d IH]; simpl.
  - rewrite list_elem_of_singleton. naive_solver.
  - destruct (decide (k0 = k)) as [->|Hne]; rewrite !elem_of_cons; naive_solver.
Qed.

Lemma pydict_set_length {V} (d : list (string * V)) k v :
  length (PyDict.set d k v) ≤ S (length d).
Proof.
  induction d as [|[k0 v0] d IH]; simpl; [lia|].
  destruct (decide (k0 = k)); simpl; lia.
Qed.

(** ** symbols.py, continued *)

Section symbols_more.
Context {T : Types} {B : Symbols.Base}.
Import Symbols.

(** The step of the loop of [compress_symbol_set]. *)
Lemma compress_from_NoDup (symbols : list (string * FoundMeta)) compressed :
  NoDup compressed.*1 →
  NoDup (foldl (λ compressed '(symbol, m),
                  match lib m with
                  | None => compressed
                  | Some l => PyDict.set compressed symbol (get_prefix (realpath l))
                  end) compressed symbols).*1.
Proof.
  revert compressed. induction symbols as [|[symbol m] symbols IH];
    intros compressed Hnd; simpl; [done|].
  apply IH. destruct (lib m); [by apply pydict_set_NoDup|done].
Qed.

Lemma compress_from_get (symbols : list (string * FoundMeta)) compressed s :
  NoDup symbols.*1 →
  PyDict.get (foldl (λ compressed '(symbol, m),
                       match lib m with
                       | None => compressed
                       | Some l => PyDict.set compressed symbol (get_prefix (realpath l))
                       end) compressed symbols) s
  = match PyDict.get symbols s ≫= lib with
    | Some l => Some (get_prefix (realpath l))
    | None => PyDict.get compressed s
    end.
Proof.
  revert compressed. induction symbols as [|[symbol m] symbols IH];
    intros compressed Hnd; simpl; [done|].
  apply NoDup_cons in Hnd as [Hnotin Hnd]. rewrite (IH _ Hnd).
  simpl in Hnotin. destruct (decide (symbol = s)) as [->|Hne].
  - apply pydict_get_None in Hnotin. rewrite Hnotin. simpl.
    destruct (lib m); [apply pydict_get_set_eq|done].
  - destruct (PyDict.get symbols s ≫= lib); [done|].
    destruct (lib m); [by apply pydict_get_set_ne|done].
Qed.

(** X1.  [compress_symbol_set] returns a dictionary: no key occurs twice.
    For a found map (a dictionary, so without repeated keys) it maps each
    symbol whose entry names a library to the identity key of that library,
    and has no other key. *)
Theorem compress_symbol_set_dict (symbols : list (string * FoundMeta)) :
  NoDup (compress_symbol_set symbols).*1 ∧
  (NoDup symbols.*1 →
   ∀ s, PyDict.get (compress_symbol_set symbols) s
        = (λ l, get_prefix (realpath l)) <$> (PyDict.get symbols s ≫= lib)).
Proof.
  split.
  - apply compress_from_NoDup, NoDup_nil_2.
  - intros Hnd s. unfold compress_symbol_set. rewrite compress_from_get by done.
    by destruct (PyDict.get symbols s ≫= lib).
Qed.

Lemma time_run_inv {F : TimeRunFrame} r0 w r w' :
  time_run_decorator r0 w = inr (r, w') → ∃ t, r = set_seconds t r0.
Proof.
  destruct (time_run_frame r0 w) as (t & w1 & ->). intros [= <- <-]. by exists t.
Qed.

(** The dictionary that the provisioner-change check builds. *)
Lemma check_symbol_provisioner_change_body_eq splice meta spliced_meta
    (binary_symbols spliced_symbols : SymbolMap) w :
  metadata splice !! meta_lib meta = Some binary_symbols →
  metadata splice !! meta_lib spliced_meta = Some spliced_symbols →
  check_symbol_provisioner_change_body splice meta spliced_meta w
  = inr ({| binary := meta_lib meta;
            splice_type := "same_lib";
            original_lib := None;
            spliced_lib := None;
            command := "binary-checks-symbol-provisioner-change";
            message := MsgStr ("Symbol provider changes: " +:+
              join newline
                (compress_symbol_set (found binary_symbols)
                   ≫= changed_lines (compress_symbol_set (found spliced_symbols))));
            prediction := bool_decide
              (compress_symbol_set (found binary_symbols)
                 ≫= changed_lines (compress_symbol_set (found spliced_symbols)) = []);
            seconds := None |}, w).
Proof.
  intros Hb Hs. unfold check_symbol_provisioner_change_body, mbind, M_bind,
    metadata_get. by rewrite Hb, Hs.
Qed.

(** X3.  When the spliced binary resolves its symbols exactly as the
    original does (equal found maps), the provisioner-change check predicts
    success and its message lists no change. *)
Theorem unchanged_resolution_passes {F : TimeRunFrame} splice meta spliced_meta
    (binary_symbols spliced_symbols : SymbolMap) w :
  metadata splice !! meta_lib meta = Some binary_symbols →
  metadata splice !! meta_lib spliced_meta = Some spliced_symbols →
  found spliced_symbols = found binary_symbols →
  ∃ r w',
    check_symbol_provisioner_change splice meta spliced_meta w = inr (r, w') ∧
    prediction r = true ∧
    message r = MsgStr "Symbol provider changes: ".
Proof.
  intros Hb Hs Hfound. unfold check_symbol_provisioner_change, mbind, M_bind.
  rewrite (check_symbol_provisioner_change_body_eq _ _ _ _ _ _ Hb Hs), Hfound.
  assert (compress_symbol_set (found binary_symbols)
            ≫= changed_lines (compress_symbol_set (found binary_symbols)) = [])
    as ->.
  { apply changed_nil. intros symbol prefix Hin.
    apply pydict_elem_of_get; [|done]. apply compress_from_NoDup, NoDup_nil_2. }
  match goal with |- context [time_run_decorator ?r w] =>
    destruct (time_run_frame r w) as (t & w' & ->) end.
  by eexists _, w'.
Qed.

Lemma not_in_after_nil_iff (before after : list string) :
  not_in_after before after = [] ↔ before ⊆ after.
Proof.
  split; [|apply not_in_after_subseteq].
  intros Hnil s Hs. destruct (decide (s ∈ after)) as [|Hnot]; [done|].
  assert (s ∈ not_in_after before after) as Hin
    by (by apply elem_of_not_in_after).
  rewrite Hnil in Hin. by apply elem_of_nil in Hin.
Qed.

(** X4.  The two per-dependency checks predict success exactly when nothing
    is lost: the missing-symbols check, when every symbol the original
    library resolved for the original binary is resolved by the spliced
    library for the spliced binary; the missing-exports check, when every
    symbol exported before the splice is exported after it. *)
Theorem dependency_checks_iff_subset {F : TimeRunFrame} binary match_
    (original_symbols spliced_symbols : SymbolMap) w :
  (∃ r w',
     missing_previously_found_symbols binary original_symbols spliced_symbols
       match_ w = inr (r, w') ∧
     (prediction r = true ↔
      ∀ s, (∃ x l, (s, x) ∈ found original_symbols ∧ lib x = Some l ∧
                   realpath l = original match_) →
           (∃ x l, (s, x) ∈ found spliced_symbols ∧ lib x = Some l ∧
                   realpath l = spliced match_))) ∧
  (∃ r w',
     missing_previously_found_exports binary match_ original_symbols
       spliced_symbols w = inr (r, w') ∧
     (prediction r = true ↔
      ∀ s, s ∈ (exported original_symbols).*1 → s ∈ (exported spliced_symbols).*1)).
Proof.
  split.
  - unfold missing_previously_found_symbols.
    match goal with |- context [time_run_decorator ?r w] =>
      destruct (time_run_frame r w) as (t & w' & ->) end.
    eexists _, w'. split; [done|]. simpl.
    rewrite bool_decide_eq_true, not_in_after_nil_iff.
    split; intros Hsub s; specialize (Hsub s);
      rewrite !elem_of_resolved_by in *; done.
  - unfold missing_previously_found_exports.
    match goal with |- context [time_run_decorator ?r w] =>
      destruct (time_run_frame r w) as (t & w' & ->) end.
    eexists _, w'. split; [done|]. simpl.
    by rewrite bool_decide_eq_true, not_in_after_nil_iff.
Qed.

(** What one turn of the loop over the matches appends: the record of the
    missing-symbols check, and at most the record of the missing-exports
    check. *)
Lemma match_body_step {F : TimeRunFrame} splice binary_fullpath
    (binary_symbols spliced_symbols : SymbolMap) acc match_ w :
  ∃ rs w',
    match_body splice binary_fullpath binary_symbols spliced_symbols acc match_ w
    = inr (acc ++ rs, w') ∧
    1 ≤ length rs ≤ 2 ∧
    Forall (λ r, splice_type r = "same_lib" ∧ binary r = binary_fullpath ∧
                 command r ∈ symbols_commands) rs.
Proof.
  unfold match_body, mbind, M_bind, missing_previously_found_symbols.
  match goal with |- context [time_run_decorator ?r w] =>
    destruct (time_run_frame r w) as (t & w1 & ->) end.
  simpl. case_bool_decide as Hkeys.
  - eexists [_], w1. split; [done|]. split; [simpl; lia|].
    apply Forall_singleton. split_and!; [done..|].
    unfold symbols_commands. set_solver.
  - apply Decidable.not_or in Hkeys as [Ho Hs].
    unfold metadata_get.
    destruct (metadata splice !! _) as [oe|]; [|done].
    destruct (metadata splice !! _) as [se|]; [|done]. simpl.
    unfold missing_previously_found_exports.
    match goal with |- context [time_run_decorator ?r w1] =>
      destruct (time_run_frame r w1) as (t' & w2 & ->) end.
    eexists [_; _], w2. rewrite <-(assoc_L (++)). split; [done|].
    split; [simpl; lia|].
    repeat apply Forall_cons_2; [| |apply Forall_nil_2];
      (split_and!; [done..|]; unfold symbols_commands; set_solver).
Qed.

Lemma match_loop_count {F : TimeRunFrame} splice binary_fullpath
    (binary_symbols spliced_symbols : SymbolMap) matches :
  ∀ acc w, ∃ rs w',
    for_each (match_body splice binary_fullpath binary_symbols spliced_symbols)
      matches acc w = inr (acc ++ rs, w') ∧
    length matches ≤ length rs ≤ 2 * length matches ∧
    Forall (λ r, splice_type r = "same_lib" ∧ binary r = binary_fullpath ∧
                 command r ∈ symbols_commands) rs.
Proof.
  induction matches as [|match_ matches IH]; intros acc w; simpl.
  - exists [], w. rewrite (right_id_L [] (++)). split; [done|]. split; [simpl; lia|done].
  - destruct (match_body_step splice binary_fullpath binary_symbols
                spliced_symbols acc match_ w) as (rs1 & w1 & Hstep & Hlen1 & Hok1).
    unfold mbind, M_bind. rewrite Hstep.
    destruct (IH (acc ++ rs1) w1) as (rs2 & w2 & -> & Hlen2 & Hok2).
    exists (rs1 ++ rs2), w2. rewrite (assoc_L (++)). split; [done|].
    rewrite length_app. split; [lia|]. by apply Forall_app.
Qed.

(** What one turn of the loop over the matches appends, record by record. *)
Lemma match_body_records {F : TimeRunFrame} splice binary_fullpath
    (binary_symbols spliced_symbols : SymbolMap) acc match_ w :
  ∃ rs w',
    match_body splice binary_fullpath binary_symbols spliced_symbols acc match_ w
    = inr (acc ++ rs, w') ∧
    match_records splice binary_fullpath binary_symbols spliced_symbols match_ rs.
Proof.
  unfold match_body, match_records, mbind, M_bind, missing_previously_found_symbols.
  match goal with |- context [time_run_decorator ?r w] =>
    destruct (time_run_frame r w) as (t & w1 & ->) end.
  simpl. case_bool_decide as Hkeys.
  - eexists [_], w1. split; [done|].
    destruct Hkeys as [-> | ->]; [by exists t|].
    destruct (metadata splice !! _); by exists t.
  - apply Decidable.not_or in Hkeys as [Ho Hs].
    unfold metadata_get.
    destruct (metadata splice !! _) as [oe|]; [|done].
    destruct (metadata splice !! _) as [se|]; [|done]. simpl.
    unfold missing_previously_found_exports.
    match goal with |- context [time_run_decorator ?r w1] =>
      destruct (time_run_frame r w1) as (t' & w2 & ->) end.
    eexists [_; _], w2. rewrite <-(assoc_L (++)). split; [done|].
    by exists t, t'.
Qed.

Lemma match_loop_records {F : TimeRunFrame} splice binary_fullpath
    (binary_symbols spliced_symbols : SymbolMap) matches :
  ∀ acc w, ∃ groups w',
    for_each (match_body splice binary_fullpath binary_symbols spliced_symbols)
      matches acc w = inr (acc ++ concat groups, w') ∧
    Forall2 (match_records splice binary_fullpath binary_symbols spliced_symbols)
      matches groups.
Proof.
  induction matches as [|match_ matches IH]; intros acc w; simpl.
  - exists [], w. simpl. rewrite (right_id_L [] (++)). split; [done|apply Forall2_nil_2].
  - destruct (match_body_records splice binary_fullpath binary_symbols
                spliced_symbols acc match_ w) as (rs1 & w1 & Hstep & Hrs1).
    unfold mbind, M_bind. rewrite Hstep.
    destruct (IH (acc ++ rs1) w1) as (groups & w2 & -> & Hgroups).
    exists (rs1 :: groups), w2. simpl. rewrite (assoc_L (++)).
    split; [done|]. by apply Forall2_cons.
Qed.

Lemma match_records_length splice binary_fullpath
    (binary_symbols spliced_symbols : SymbolMap) matches groups :
  Forall2 (match_records splice binary_fullpath binary_symbols spliced_symbols)
    matches groups →
  length matches ≤ length (concat groups) ≤ 2 * length matches.
Proof.
  induction 1 as [|match_ rs matches groups Hrs _ IH]; simpl; [lia|].
  rewrite length_app. unfold match_records in Hrs.
  assert (1 ≤ length rs ≤ 2); [|lia].
  destruct (metadata splice !! _) as [oe|].
  - destruct (metadata splice !! _) as [se|].
    + destruct Hrs as (t & t' & ->). simpl. lia.
    + destruct Hrs as (t & ->). simpl. lia.
  - destruct Hrs as (t & ->). simpl. lia.
Qed.

(** X6.  For a binary that passes the gate (it is in the spliced lookup,
    both symbol maps are in the metadata and the original has no missing
    symbol) the loop appends the provisioner-change record first and then the
    records of the dependency matches, match by match in the order of
    [match_by_prefix]: for each match the record of the missing-symbols check
    on it and, when the metadata has both export maps of the match, the
    record of the missing-exports check after it.  For [n] matches these are
    between [n] and [2 n] records. *)
Theorem binary_record_count {F : TimeRunFrame} splice spliced_deps acc binary
    meta spliced_meta (binary_symbols spliced_symbols : SymbolMap) w :
  PyDict.get spliced_deps binary = Some spliced_meta →
  metadata splice !! meta_lib meta = Some binary_symbols →
  metadata splice !! meta_lib spliced_meta = Some spliced_symbols →
  missing binary_symbols = [] →
  let matches := match_by_prefix (meta_deps meta) (meta_deps spliced_meta) in
  let n := length matches in
  ∃ r groups w',
    binary_body splice spliced_deps acc (binary, meta) w
    = inr (acc ++ r :: concat groups, w') ∧
    command r = "binary-checks-symbol-provisioner-change" ∧
    Forall2 (match_records splice (meta_lib meta) binary_symbols spliced_symbols)
      matches groups ∧
    n ≤ length (concat groups) ≤ 2 * n.
Proof.
  intros Hin Hb Hs Hmissing matches n. unfold binary_body. rewrite Hin.
  unfold mbind, M_bind, metadata_get. rewrite Hb. simpl.
  rewrite bool_decide_false by (by intros []). rewrite Hs. simpl.
  unfold check_symbol_provisioner_change, mbind, M_bind.
  rewrite (check_symbol_provisioner_change_body_eq _ _ _ _ _ _ Hb Hs).
  match goal with |- context [time_run_decorator ?r w] =>
    destruct (time_run_frame r w) as (t & w1 & ->) end.
  match goal with |- context [for_each _ _ (acc ++ [?r]) w1] =>
    destruct (match_loop_records splice (meta_lib meta) binary_symbols spliced_symbols
                matches (acc ++ [r]) w1) as (groups & w2 & Hloop & Hgroups) end.
  eexists _, groups, w2. fold matches. rewrite Hloop, <-(assoc_L (++)).
  split; [reflexivity|]. split; [done|]. split; [done|].
  by eapply match_records_length.
Qed.

(** Each turn of the loop over the binaries keeps the records well formed. *)
Lemma binary_body_records {F : TimeRunFrame} splice spliced_deps original_deps
    acc item w acc' w' :
  item ∈ original_deps →
  Forall (symbols_record_ok original_deps) acc →
  binary_body splice spliced_deps acc item w = inr (acc', w') →
  Forall (symbols_record_ok original_deps) acc'.
Proof.
  destruct item as [binary meta]. intros Hitem Hacc. unfold binary_body.
  destruct (PyDict.get spliced_deps binary) as [spliced_meta|]; [|by intros [= <- <-]].
  unfold mbind, M_bind, metadata_get.
  destruct (metadata splice !! meta_lib meta) as [bs|]; [|done]. simpl.
  case_bool_decide.
  { intros [= <- <-]. apply Forall_app. split; [done|]. apply Forall_singleton.
    split_and!; [done| |by exists binary, meta].
    unfold symbols_commands. simpl. set_solver. }
  destruct (metadata splice !! meta_lib spliced_meta) as [ss|]; [|done]. simpl.
  destruct (check_symbol_provisioner_change splice meta spliced_meta w)
    as [e|[r w1]] eqn:Hcheck; [done|].
  assert (symbols_record_ok original_deps r) as Hr.
  { unfold check_symbol_provisioner_change, mbind, M_bind in Hcheck.
    destruct (check_symbol_provisioner_change_body splice meta spliced_meta w)
      as [e|[r0 w0]] eqn:Hbody; [done|].
    apply time_run_inv in Hcheck as [t ->].
    unfold check_symbol_provisioner_change_body, mbind, M_bind, metadata_get in Hbody.
    destruct (metadata splice !! meta_lib meta); [|done].
    destruct (metadata splice !! meta_lib spliced_meta); [|done].
    injection Hbody as <- <-.
    split_and!; [done| |by exists binary, meta].
    unfold symbols_commands. simpl. set_solver. }
  destruct (match_loop_count splice (meta_lib meta) bs ss
              (match_by_prefix (meta_deps meta) (meta_deps spliced_meta))
              (acc ++ [r]) w1) as (rs & w2 & -> & _ & Hrs).
  intros [= <- <-]. apply Forall_app. split; [by apply Forall_app, conj, Forall_singleton|].
  eapply Forall_impl; [exact Hrs|]. intros r' (Htype & Hbinary & Hcommand).
  split_and!; [done..|]. by exists binary, meta.
Qed.

(** X5.  A run of [splice_equivalent_libs] that completes changes nothing
    of the splice but the "symbols" bucket, which it replaces only by a
    non-empty list; every record of that list is about a binary of the
    original lookup, has [splice_type] "same_lib" and one of the four
    commands of the predictor. *)
Theorem symbols_run_records {F : TimeRunFrame} splice w splice' w' :
  splice_equivalent_libs splice w = inr (splice', w') →
  ∃ ps,
    Forall (symbols_record_ok
              (create_elfcall_deps_lookup splice (splice_original splice))) ps ∧
    splice' = match ps with
              | [] => splice
              | _ => set_predictions (<["symbols" := ps]> (predictions splice)) splice
              end.
Proof.
  unfold splice_equivalent_libs. intros Hrun.
  apply bind_inr in Hrun as (ps & w1 & Hloop & Hstore).
  exists ps. split.
  - eapply (for_each_preserves
              (λ acc _, Forall (symbols_record_ok
                 (create_elfcall_deps_lookup splice (splice_original splice))) acc));
      [|apply Forall_nil_2|exact Hloop].
    intros acc item w0 acc' w0' Hitem Hacc Hbody.
    by eapply binary_body_records.
  - destruct ps; by injection Hstore as <- <-.
Qed.

(** X7.  A binary of both lookups whose path has no symbol map in the
    metadata makes the run raise [KeyError]: the records collected for the
    binaries before it are not stored. *)
Theorem missing_metadata_aborts splice pre binary meta post spliced_meta ps w w1 :
  let spliced_deps := create_elfcall_deps_lookup splice (splice_spliced splice) in
  create_elfcall_deps_lookup splice (splice_original splice)
  = pre ++ (binary, meta) :: post →
  for_each (binary_body splice spliced_deps) pre [] w = inr (ps, w1) →
  PyDict.get spliced_deps binary = Some spliced_meta →
  metadata splice !! meta_lib meta = None →
  splice_equivalent_libs splice w = inl (KeyError (meta_lib meta)).
Proof.
  intros spliced_deps Hdeps Hpre Hin Hmeta. unfold splice_equivalent_libs.
  fold spliced_deps. rewrite Hdeps. unfold mbind at 1, M_bind.
  rewrite for_each_app, Hpre. simpl. unfold mbind, M_bind, metadata_get.
  by rewrite Hin, Hmeta.
Qed.

End symbols_more.

Section symbols_more_examples.
Import Example Scenario.

Lemma provisioner_change_prediction_witness :
  ∃ r w',
    Symbols.check_symbol_provisioner_change dropped_export app_meta new_app_meta 0
    = inr (r, w') ∧
    Symbols.prediction r = true.
Proof.
  destruct (provisioner_change_prediction (F := example_time_run_frame)
              dropped_export app_meta new_app_meta
              (symbol_map [resolved "a" "/orig/lib/libx.so.1"] [] [])
              (symbol_map [resolved "a" "/new/lib/libx.so.2"] [] []) 0)
    as (r & w' & Hrun & _ & Hiff); [by vm_compute..|].
  exists r, w'. split; [done|]. apply Hiff.
  intros symbol prefix Hin. vm_compute in Hin.
  apply list_elem_of_singleton in Hin as [= -> ->]. by vm_compute.
Defined.

Lemma unchanged_resolution_passes_witness :
  ∃ r w',
    Symbols.check_symbol_provisioner_change same_resolution app_meta new_app_meta 0
    = inr (r, w') ∧
    Symbols.prediction r = true ∧
    Symbols.message r = Symbols.MsgStr "Symbol provider changes: ".
Proof.
  apply (unchanged_resolution_passes (F := example_time_run_frame)
           same_resolution app_meta new_app_meta
           (symbol_map [resolved "foo" "/orig/lib/libx.so.1"] [] [])
           (symbol_map [resolved "foo" "/orig/lib/libx.so.1"] [] []));
    by vm_compute.
Defined.

Lemma dependency_checks_iff_subset_witness :
  ∃ r w',
    Symbols.missing_previously_found_exports "/orig/bin/app"
      {| Symbols.original := "/orig/lib/libx.so.1";
         Symbols.spliced := "/new/lib/libx.so.2" |}
      (symbol_map [] [] ["a"; "c"]) (symbol_map [] [] ["a"; "b"; "c"]) 0
    = inr (r, w') ∧
    Symbols.prediction r = true.
Proof.
  destruct (dependency_checks_iff_subset (F := example_time_run_frame)
              "/orig/bin/app"
              {| Symbols.original := "/orig/lib/libx.so.1";
                 Symbols.spliced := "/new/lib/libx.so.2" |}
              (symbol_map [] [] ["a"; "c"]) (symbol_map [] [] ["a"; "b"; "c"]) 0)
    as (_ & r & w' & Hrun & Hiff).
  exists r, w'. split; [done|]. apply Hiff. simpl. set_solver.
Defined.

Lemma binary_record_count_witness :
  ∃ r t t' w',
    Symbols.binary_body dropped_export
      (Symbols.create_elfcall_deps_lookup dropped_export
         (Symbols.splice_spliced dropped_export))
      [] ("app", app_meta) 0
    = inr ([r;
            Symbols.set_seconds t
              (Symbols.missing_previously_found_symbols_body "/orig/bin/app"
                 (symbol_map [resolved "a" "/orig/lib/libx.so.1"] [] [])
                 (symbol_map [resolved "a" "/new/lib/libx.so.2"] [] [])
                 {| Symbols.original := "/orig/lib/libx.so.1";
                    Symbols.spliced := "/new/lib/libx.so.2" |});
            Symbols.set_seconds t'
              (Symbols.missing_previously_found_exports_body "/orig/bin/app"
                 {| Symbols.original := "/orig/lib/libx.so.1";
                    Symbols.spliced := "/new/lib/libx.so.2" |}
                 (symbol_map [] [] ["a"; "b"; "c"])
                 (symbol_map [] [] ["a"; "c"]))], w') ∧
    Symbols.command r = "binary-checks-symbol-provisioner-change".
Proof.
  destruct (binary_record_count (F := example_time_run_frame) dropped_export
              (Symbols.create_elfcall_deps_lookup dropped_export
                 (Symbols.splice_spliced dropped_export))
              [] "app" app_meta new_app_meta
              (symbol_map [resolved "a" "/orig/lib/libx.so.1"] [] [])
              (symbol_map [resolved "a" "/new/lib/libx.so.2"] [] []) 0)
    as (r & groups & w' & Hrun & Hcommand & Hgroups & _); [by vm_compute..|].
  apply Forall2_cons_inv_l in Hgroups as (rs & groups' & Hrs & Hrest & ->).
  apply Forall2_nil_inv_l in Hrest as ->.
  destruct Hrs as (t & t' & ->).
  exists r, t, t', w'. split; [exact Hrun|done].
Defined.

Lemma symbols_run_records_witness :
  ∃ splice' w' ps,
    Symbols.splice_equivalent_libs dropped_export 0 = inr (splice', w') ∧
    Symbols.predictions splice' !! "symbols" = Some ps ∧
    Forall (λ r, Symbols.splice_type r = "same_lib") ps.
Proof.
  destruct (Symbols.splice_equivalent_libs dropped_export 0)
    as [e|[splice' w']] eqn:Hrun; [by vm_compute in Hrun|].
  destruct (symbols_run_records (F := example_time_run_frame) _ _ _ _ Hrun)
    as (ps & Hok & ->).
  destruct ps as [|r ps].
  { vm_compute in Hrun. by injection Hrun. }
  eexists _, w', (r :: ps). split; [reflexivity|].
  split; [apply lookup_insert_eq|].
  eapply Forall_impl; [exact Hok|]. by intros r' [Htype _].
Defined.

Lemma missing_metadata_aborts_witness :
  Symbols.splice_equivalent_libs no_metadata 0 = inl (KeyError "/orig/bin/app").
Proof.
  apply (missing_metadata_aborts no_metadata [] "app" (bare_meta "/orig/bin/app") []
           (bare_meta "/new/bin/app") [] 0 0); by vm_compute.
Defined.

End symbols_more_examples.

(** ** libabigail.py, continued *)

(** A loop whose body appends, for each item, records with given
    projections appends records whose projections are those of the items in
    turn. *)
Lemma for_each_collect {W A B K} (key : B → K) (keys : A → list K)
    (body : list B → A → M W (list B)) :
  (∀ acc x w, ∃ new w', body acc x w = inr (acc ++ new, w') ∧ key <$> new = keys x) →
  ∀ l acc w, ∃ new w',
    for_each body l acc w = inr (acc ++ new, w') ∧ key <$> new = l ≫= keys.
Proof.
  intros Hbody l. induction l as [|x l IH]; intros acc w; simpl.
  - exists [], w. by rewrite (right_id_L [] (++)).
  - destruct (Hbody acc x w) as (new1 & w1 & Hx & Hkeys1).
    unfold mbind at 1, M_bind. rewrite Hx.
    destruct (IH (acc ++ new1) w1) as (new2 & w2 & -> & Hkeys2).
    exists (new1 ++ new2), w2. rewrite (assoc_L (++)). split; [done|].
    by rewrite fmap_app, Hkeys1, Hkeys2.
Qed.

Lemma bind_length_const {A K} (f : A → list K) (l : list A) n :
  (∀ x, length (f x) = n) → length (l ≫= f) = length l * n.
Proof.
  intros Hf. induction l as [|x l IH]; [done|].
  rewrite bind_cons, length_app, Hf, IH. simpl. lia.
Qed.

Lemma prefix_before_dot s : String.prefix (before_dot s) s = true.
Proof.
  induction s as [|c s IH]; simpl; [done|].
  destruct (Ascii.eqb c "."); simpl; [done|].
  by destruct (ascii_dec c c).
Qed.

Section libabigail_more.
Context {T : Types} {U : Libabigail.Utils}.
Import Libabigail.

(** X8.  Substitution mode returns, and the records it stores are, in
    order, one for every triple of a binary, an original path and a
    replacement path: the number of comparisons is the product of the three
    counts. *)
Theorem different_libs_is_product abicompat splice original_libs replace_libs w :
  ∃ ps w',
    splice_different_libs abicompat splice original_libs replace_libs w
    = inr (store_predictions ps splice, w') ∧
    (λ r, (binary r, lib r, Libabigail.replace r)) <$> ps
    = (b ← binaries splice;
       o ← flatten_paths original_libs;
       r ← flatten_paths replace_libs;
       [(b, o, Some r)]) ∧
    length ps = length (binaries splice) * (length (flatten_paths original_libs)
                                            * length (flatten_paths replace_libs)).
Proof.
  unfold splice_different_libs.
  match goal with |- context [for_each ?body (binaries splice) []] =>
    destruct (for_each_collect (λ r, (binary r, lib r, Libabigail.replace r))
                (λ b, o ← flatten_paths original_libs;
                      r ← flatten_paths replace_libs; [(b, o, Some r)])
                body) with (l := binaries splice) (acc := @nil PredictionRecord) (w := w)
      as (ps & w' & Hloop & Hkeys) end.
  - intros acc b w0.
    apply (for_each_collect (λ r, (binary r, lib r, Libabigail.replace r))
             (λ o, r ← flatten_paths replace_libs; [(b, o, Some r)])).
    intros acc1 o w1.
    apply (for_each_collect (λ r, (binary r, lib r, Libabigail.replace r))
             (λ r, [(b, o, Some r)])).
    intros acc2 r w2.
    destruct (different_body_run abicompat b o r acc2 w2) as (res & w3 & _ & ->).
    by eexists [_], w3.
  - exists ps, w'. unfold mbind at 1, M_bind. rewrite Hloop. simpl in Hkeys.
    split; [done|]. split; [done|].
    rewrite <-(length_fmap (λ r, (binary r, lib r, Libabigail.replace r))), Hkeys.
    apply bind_length_const. intros b.
    apply bind_length_const. intros o.
    rewrite (bind_length_const _ _ 1); [lia|done].
Qed.

(** X9.  Equivalence mode returns, and the records it stores are, in
    order, one for every binary, every path of every spliced library set and
    every original path whose basename starts with the identity key of that
    spliced path. *)
Theorem equivalent_libs_is_candidates abicompat splice spliced_libs w :
  let original_libs := flatten_paths (default [] (libs splice !! "original")) in
  ∃ ps w',
    splice_equivalent_libs abicompat splice spliced_libs w
    = inr (store_predictions ps splice, w') ∧
    (λ r, (binary r, lib r)) <$> ps
    = (b ← binaries splice;
       libset ← spliced_libs;
       spliced_lib ← paths libset;
       _ ← originals_for original_libs spliced_lib;
       [(b, spliced_lib)]).
Proof.
  intros original_libs. unfold splice_equivalent_libs. fold original_libs.
  match goal with |- context [for_each ?body (binaries splice) []] =>
    destruct (for_each_collect (λ r, (binary r, lib r))
                (λ b, libset ← spliced_libs;
                      spliced_lib ← paths libset;
                      _ ← originals_for original_libs spliced_lib;
                      [(b, spliced_lib)])
                body) with (l := binaries splice) (acc := @nil PredictionRecord) (w := w)
      as (ps & w' & Hloop & Hkeys) end.
  - intros acc b w0.
    apply (for_each_collect (λ r, (binary r, lib r))
             (λ libset, spliced_lib ← paths libset;
                        _ ← originals_for original_libs spliced_lib;
                        [(b, spliced_lib)])).
    intros acc1 libset w1.
    apply (for_each_collect (λ r, (binary r, lib r))
             (λ spliced_lib, _ ← originals_for original_libs spliced_lib;
                             [(b, spliced_lib)])).
    intros acc2 spliced_lib w2.
    apply (for_each_collect (λ r, (binary r, lib r)) (λ _, [(b, spliced_lib)])).
    intros acc3 original w3.
    destruct (equivalent_body_run abicompat b spliced_lib acc3 original w3)
      as (res & w4 & _ & ->).
    by eexists [_], w4.
  - exists ps, w'. unfold mbind at 1, M_bind. by rewrite Hloop.
Qed.

(** X10.  When no spliced path has an original candidate, equivalence mode
    runs no comparison and stores nothing: it returns the splice and the
    world as they were. *)
Theorem no_candidates_no_comparison abicompat splice spliced_libs w :
  (∀ spliced_lib, spliced_lib ∈ flatten_paths spliced_libs →
     originals_for (flatten_paths (default [] (libs splice !! "original")))
       spliced_lib = []) →
  splice_equivalent_libs abicompat splice spliced_libs w = inr (splice, w).
Proof.
  intros Hnone. unfold splice_equivalent_libs.
  match goal with |- context [for_each ?body (binaries splice) []] =>
    destruct (for_each_invariant (λ acc w', acc = @nil PredictionRecord ∧ w' = w)
                body (binaries splice)) with (acc := @nil PredictionRecord) (w := w)
      as (ps & w' & Hloop & -> & ->) end; [|done|].
  - intros acc b w0 _ [-> ->].
    apply (for_each_invariant (λ acc w', acc = @nil PredictionRecord ∧ w' = w));
      [|done].
    intros acc1 libset w1 Hlibset [-> ->].
    apply (for_each_invariant (λ acc w', acc = @nil PredictionRecord ∧ w' = w));
      [|done].
    intros acc2 spliced_lib w2 Hlib [-> ->].
    rewrite Hnone; [by eexists _, _|].
    apply list_elem_of_bind. by exists libset.
  - unfold mbind, M_bind. by rewrite Hloop.
Qed.

(** X11.  The candidates for a spliced path are original paths, in their
    order, whose basename starts with the identity key of the spliced path;
    every original path with the same identity key is a candidate, and so is
    the spliced path itself when it is among the originals. *)
Theorem originals_for_candidates original_libs spliced_lib :
  originals_for original_libs spliced_lib `sublist_of` original_libs ∧
  (∀ x, x ∈ originals_for original_libs spliced_lib ↔
        x ∈ original_libs ∧
        String.prefix (before_dot (basename spliced_lib)) (basename x) = true) ∧
  (∀ x, x ∈ original_libs →
        before_dot (basename x) = before_dot (basename spliced_lib) →
        x ∈ originals_for original_libs spliced_lib) ∧
  (spliced_lib ∈ original_libs →
   spliced_lib ∈ originals_for original_libs spliced_lib).
Proof.
  assert (Hmem : ∀ x, x ∈ originals_for original_libs spliced_lib ↔
                      x ∈ original_libs ∧
                      String.prefix (before_dot (basename spliced_lib)) (basename x) = true).
  { intros x. unfold originals_for. rewrite list_elem_of_filter.
    rewrite Is_true_true. tauto. }
  split_and!; [apply sublist_filter|done| |].
  - intros x Hx Hkey. apply Hmem. split; [done|].
    rewrite <-Hkey. apply prefix_before_dot.
  - intros Hin. apply Hmem. split; [done|]. apply prefix_before_dot.
Qed.

End libabigail_more.

Section libabigail_more_examples.
Import Example Scenario.

Lemma no_candidates_no_comparison_witness :
  Libabigail.splice_equivalent_libs None unrelated_libs
    [{| Libabigail.paths := ["/new/lib/libx.so.2"] |}] 0
  = inr (unrelated_libs, 0).
Proof.
  apply (no_candidates_no_comparison (U := utils) None unrelated_libs
           [{| Libabigail.paths := ["/new/lib/libx.so.2"] |}] 0).
  intros spliced_lib Hin.
  apply list_elem_of_bind in Hin as (libset & Hin & Hlibset).
  apply list_elem_of_singleton in Hlibset as ->. simpl in Hin.
  apply list_elem_of_singleton in Hin as ->. by vm_compute.
Defined.

End libabigail_more_examples.

(** ** libabigail.py: the search for the tool *)

Section locate.
Context {T : Types} {H : Locate.Host}.
Import Locate.

(** X13.  [add_to_path] raises [KeyError] exactly when PATH is unset.
    Otherwise it puts the new directory and a colon in front of the old
    value and leaves every other variable alone; of two directories added
    one after the other, the one added last comes first. *)
Theorem add_to_path_prepends path (environ : gmap string string) :
  (environ !! "PATH" = None → add_to_path path environ = inl (KeyError "PATH")) ∧
  (∀ old, environ !! "PATH" = Some old →
     ∃ environ',
       add_to_path path environ = inr environ' ∧
       environ' !! "PATH" = Some (path +:+ ":" +:+ old) ∧
       (∀ name, name ≠ "PATH" → environ' !! name = environ !! name) ∧
       ∀ later, ∃ environ'',
         add_to_path later environ' = inr environ'' ∧
         environ'' !! "PATH" = Some (later +:+ ":" +:+ path +:+ ":" +:+ old)).
Proof.
  unfold add_to_path. split; [by intros ->|].
  intros old ->. eexists. split; [done|]. split; [apply lookup_insert_eq|].
  split; [by intros name Hname; rewrite lookup_insert_ne|].
  intros later. rewrite lookup_insert_eq. eexists. split; [done|].
  by rewrite lookup_insert_eq.
Qed.

(** X14.  Whatever [find_abicompat] assigns to [self.abicompat] is a
    non-empty path that [utils.which] reported under the final environment.
    When the tool is on the path at once, the environment is not touched and
    spack is not asked.  When the method assigns a path after asking spack,
    PATH is the [bin] directory of the spack prefix, a colon, and the PATH
    that spack left. *)
Theorem find_abicompat_assigns environ w :
  let first := which environ "abicompat" w in
  ∃ r environ' w',
    find_abicompat environ w = (r, environ', w') ∧
    (∀ p, r = Some p →
          p ≠ "" ∧ ∃ w0, which environ' "abicompat" w0 = (p, w')) ∧
    (first.1 ≠ "" → r = Some first.1 ∧ environ' = environ ∧ w' = first.2) ∧
    (∀ p, r = Some p → first.1 = "" →
          ∃ prefix environ1 w1 old,
            spack_libabigail environ first.2 = (Some prefix, environ1, w1) ∧
            environ1 !! "PATH" = Some old ∧
            environ' = <["PATH" := path_join prefix "bin" +:+ ":" +:+ old]> environ1).
Proof.
  intros first. unfold find_abicompat. subst first.
  destruct (which environ "abicompat" w) as [message w1] eqn:Hfirst. simpl.
  destruct (String.eqb message "") eqn:Hmessage.
  - apply String.eqb_eq in Hmessage as ->.
    destruct (spack_libabigail environ w1) as [[[prefix|] environ1] w2] eqn:Hspack.
    2:{ eexists None, _, _. by split_and!. }
    unfold add_to_path. destruct (environ1 !! "PATH") as [old|] eqn:Hpath.
    2:{ eexists None, _, _. by split_and!. }
    destruct (which _ "abicompat" w2) as [message' w3] eqn:Hsecond.
    destruct (String.eqb message' "") eqn:Hmessage'.
    { eexists None, _, _. by split_and!. }
    apply String.eqb_neq in Hmessage'.
    eexists (Some message'), _, w3. split; [done|]. split_and!.
    + intros p [= <-]. split; [done|]. by exists w2.
    + done.
    + intros p _ _. by exists prefix, environ1, w2, old.
  - apply String.eqb_neq in Hmessage.
    exists (Some message), environ, w1. split; [done|]. split_and!.
    + intros p [= <-]. split; [done|]. by exists w.
    + done.
    + done.
Qed.

End locate.

(** ** Paths *)

Lemma prefix_app s t : String.prefix s (s +:+ t) = true.
Proof.
  induction s as [|c s IH]; simpl; [by destruct t|].
  by destruct (ascii_dec c c).
Qed.

Lemma append_assoc a b c : (a +:+ b) +:+ c = a +:+ b +:+ c.
Proof.
  induction a as [|x a IH]; [done|].
  change ((String x a +:+ b) +:+ c) with (String x ((a +:+ b) +:+ c)).
  by rewrite IH.
Qed.

Lemma prefix_sep_cons c s : String.prefix "/" (String c s) = Ascii.eqb c "/".
Proof.
  change (String.prefix "/" (String c s))
    with (if ascii_dec "/" c then String.prefix "" s else false).
  destruct (ascii_dec "/" c) as [<-|Hne]; [by destruct s|].
  symmetry. apply Ascii.eqb_neq. congruence.
Qed.

Lemma no_sep_head_app s t :
  String.prefix "/" s = false → String.prefix "/" t = false →
  String.prefix "/" (s +:+ t) = false.
Proof.
  destruct s as [|c s]; [done|].
  change (String c s +:+ t) with (String c (s +:+ t)).
  by rewrite !prefix_sep_cons.
Qed.

Lemma lstrip_sep_head s : String.prefix "/" (lstrip_sep s) = false.
Proof.
  induction s as [|c s IH]; [done|]. cbn [lstrip_sep].
  destruct (Ascii.eqb c "/") eqn:Hc; [done|]. by rewrite prefix_sep_cons.
Qed.

Lemma lstrip_sep_fixed s : String.prefix "/" s = false → lstrip_sep s = s.
Proof.
  destruct s as [|c s]; [done|]. rewrite prefix_sep_cons. cbn [lstrip_sep].
  by intros ->.
Qed.

Lemma rstrip_sep_head s :
  String.prefix "/" s = false → String.prefix "/" (rstrip_sep s) = false.
Proof.
  destruct s as [|c s]; [done|]. rewrite prefix_sep_cons. cbn [rstrip_sep].
  intros Hc. rewrite Hc. cbn [andb]. by rewrite prefix_sep_cons.
Qed.

Lemma rstrip_sep_idem s : rstrip_sep (rstrip_sep s) = rstrip_sep s.
Proof.
  induction s as [|c s IH]; [done|]. cbn [rstrip_sep].
  destruct (Ascii.eqb c "/" && String.eqb (rstrip_sep s) "") eqn:Hc; [done|].
  cbn [rstrip_sep]. by rewrite IH, Hc.
Qed.

Lemma strip_sep_idem s : strip_sep (strip_sep s) = strip_sep s.
Proof.
  unfold strip_sep.
  rewrite (lstrip_sep_fixed (rstrip_sep (lstrip_sep s)))
    by apply rstrip_sep_head, lstrip_sep_head.
  apply rstrip_sep_idem.
Qed.

Lemma strip_sep_head s : String.prefix "/" (strip_sep s) = false.
Proof. apply rstrip_sep_head, lstrip_sep_head. Qed.

Lemma append_empty_r s : s +:+ "" = s.
Proof.
  induction s as [|c s IH]; [done|].
  change (String c s +:+ "") with (String c (s +:+ "")). by rewrite IH.
Qed.

Lemma drop_prefix_app s t : drop_prefix s (s +:+ t) = Some t.
Proof.
  induction s as [|c s IH]; [done|].
  change (String c s +:+ t) with (String c (s +:+ t)). cbn [drop_prefix].
  by rewrite Ascii.eqb_refl.
Qed.

(** The components of a path read with a component already begun. *)
Lemma components_from_cur cur p :
  components_from cur p
  = match components p with
    | [] => [cur]
    | c :: cs => (cur +:+ c) :: cs
    end.
Proof.
  unfold components. revert cur.
  induction p as [|a p IH]; intros cur; cbn [components_from].
  - by rewrite append_empty_r.
  - destruct (Ascii.eqb a "/"); [by rewrite append_empty_r|].
    rewrite (IH (cur +:+ String a "")), (IH ("" +:+ String a "")).
    destruct (components_from "" p) as [|c cs]; [done|].
    by rewrite append_assoc.
Qed.

Lemma components_from_nonempty cur p : components_from cur p ≠ [].
Proof.
  revert cur. induction p as [|a p IH]; intros cur; cbn [components_from]; [done|].
  destruct (Ascii.eqb a "/"); [done|apply IH].
Qed.

(** A component of [s +:+ t] is one of [s], one of [t], or a component of
    [s] continued by the first component of [t]. *)
Lemma components_from_app cur s t x :
  x ∈ components_from cur (s +:+ t) →
  x ∈ components_from cur s ∨ x ∈ components t ∨
  ∃ l h hs, components t = h :: hs ∧ l ∈ components_from cur s ∧ x = l +:+ h.
Proof.
  revert cur. induction s as [|a s IH]; intros cur.
  - change ("" +:+ t) with t. rewrite components_from_cur.
    destruct (components t) as [|h hs] eqn:Ht.
    { by apply components_from_nonempty in Ht. }
    intros [->|Hx]%elem_of_cons.
    + right. right. exists cur, h, hs. split_and!; [done| |done]. left.
    + right. left. by right.
  - change (String a s +:+ t) with (String a (s +:+ t)). cbn [components_from].
    destruct (Ascii.eqb a "/"); [|apply IH].
    intros [->|Hx]%elem_of_cons; [left; left|].
    destruct (IH "" Hx) as [Hs|[Ht|(l & h & hs & Ht & Hl & ->)]].
    + left. by right.
    + by right; left.
    + right. right. exists l, h, hs. split_and!; [done| |done]. by right.
Qed.

Lemma components_app s t x :
  x ∈ components (s +:+ t) →
  x ∈ components s ∨ x ∈ components t ∨
  ∃ l h hs, components t = h :: hs ∧ l ∈ components s ∧ x = l +:+ h.
Proof. apply components_from_app. Qed.

Lemma components_lstrip_sep s x :
  x ∈ components (lstrip_sep s) → x ∈ components s.
Proof.
  induction s as [|a s IH]; [done|]. cbn [lstrip_sep].
  destruct (Ascii.eqb a "/") eqn:Ha; [|done].
  intros Hx. unfold components. cbn [components_from]. rewrite Ha.
  right. by apply IH.
Qed.

Lemma components_from_rstrip_sep cur s x :
  x ∈ components_from cur (rstrip_sep s) → x ∈ components_from cur s.
Proof.
  revert cur. induction s as [|a s IH]; intros cur; [done|].
  cbn [rstrip_sep components_from].
  destruct (Ascii.eqb a "/") eqn:Ha; cbn [andb].
  - destruct (String.eqb (rstrip_sep s) "") eqn:Hs.
    + cbn [components_from]. intros ->%list_elem_of_singleton. left.
    + cbn [components_from]. rewrite Ha.
      intros [->|Hx]%elem_of_cons; [left|right; by apply IH].
  - cbn [components_from]. rewrite Ha. apply IH.
Qed.

Lemma components_strip_sep s x :
  x ∈ components (strip_sep s) → x ∈ components s.
Proof.
  intros Hx. by apply components_lstrip_sep, components_from_rstrip_sep.
Qed.

Lemma dotdot_not_json l : ".." ≠ l +:+ ".json".
Proof. by destruct l as [|a [|b [|c l]]]. Qed.

Lemma dotdot_not_dash l y : ".." ≠ l +:+ String "-" y.
Proof. by destruct l as [|a [|b [|c l]]]. Qed.

(** The name of a cache entry has a [..] component only if the prefix or
    the library path has one. *)
Lemma json_name_components lib_path :
  ".." ∈ components (strip_sep lib_path +:+ ".json") → ".." ∈ components lib_path.
Proof.
  intros [Hs|[Hj|(l & h & hs & [= <- <-] & _ & Hx)]]%components_app.
  - by apply components_strip_sep.
  - by apply list_elem_of_singleton in Hj.
  - by apply dotdot_not_json in Hx.
Qed.

Lemma prefixed_name_components lib_path prefix :
  ".." ∈ components (prefix +:+ "-" +:+ strip_sep lib_path +:+ ".json") →
  ".." ∈ components prefix ∨ ".." ∈ components lib_path.
Proof.
  assert (components ("-" +:+ strip_sep lib_path +:+ ".json")
          = match components (strip_sep lib_path +:+ ".json") with
            | [] => ["-"]
            | y :: ys => String "-" y :: ys
            end) as Hdash.
  { change (components ("-" +:+ strip_sep lib_path +:+ ".json"))
      with (components_from "-" (strip_sep lib_path +:+ ".json")).
    apply components_from_cur. }
  destruct (components (strip_sep lib_path +:+ ".json")) as [|y ys] eqn:Hname.
  { by apply components_from_nonempty in Hname. }
  assert (".." ∈ ys → ".." ∈ components lib_path) as Hys.
  { intros Hin. apply json_name_components. rewrite Hname. by right. }
  intros [Hp|[Hd|(l & h & hs & Hh & _ & Hx)]]%components_app.
  - by left.
  - rewrite Hdash in Hd. apply elem_of_cons in Hd as [Hd|Hd]; [done|].
    right. by apply Hys.
  - rewrite Hdash in Hh. injection Hh as <- <-. by apply dotdot_not_dash in Hx.
Qed.

(** ** smeagle/__init__.py, continued *)

Section smeagle_more.
Context {T : Types} {L : Smeagle.Tools}.
Import Smeagle.

Lemma mkdir_one_same d (files : gmap string Node) path node :
  files !! path = Some node → mkdir_one d files !! path = Some node.
Proof.
  intros Hpath. unfold mkdir_one. destruct (files !! d) eqn:Hd; [done|].
  rewrite lookup_insert_ne; [done|]. intros ->. congruence.
Qed.

Lemma mkdir_p_same dir (files : gmap string Node) path node :
  files !! path = Some node → mkdir_p dir files !! path = Some node.
Proof.
  intros Hpath. unfold mkdir_p. destruct (String.eqb dir ""); [done|].
  induction (ancestors_from "" dir ++ [dir]) as [|d ds IH]; simpl; [done|].
  by apply mkdir_one_same.
Qed.

Lemma extracted_Some res d :
  extracted res = Some d ↔
  data res = Some d ∧ truthy d = true ∧ return_code res = 0%Z.
Proof.
  unfold extracted. destruct (data res) as [d'|]; [|by split; [|intros []]].
  destruct (truthy d') eqn:Htruthy; cbn [andb].
  - destruct (bool_decide_reflect (return_code res = 0%Z)) as [Hcode|Hcode].
    + split; [by intros [= ->]|by intros ([= ->] & _ & _)].
    + split; [done|by intros (_ & _ & ?)].
  - split; [done|]. intros ([= ->] & ? & _). congruence.
Qed.

(** X15.  For a cache key that is a canonical path (no [.] or [..]
    component, no doubled or trailing separator), fact generation never
    changes what is already in the file system: every canonical path, which
    names the same file as the key only when it is the key, and that held a
    file or a directory before the call holds the same one after it. *)
Theorem generate_cle_data_immutable lib_path prefix st r st' :
  canonical (cache_key_of (cache_dir st) lib_path prefix) = true →
  generate_cle_data lib_path prefix st = inr (r, st') →
  ∀ path node, canonical path = true →
               fs st !! path = Some node → fs st' !! path = Some node.
Proof.
  intros _ Hrun path node _ Hpath.
  destruct (path_exists (fs st) (cache_key_of (cache_dir st) lib_path prefix))
    eqn:Hexists.
  - rewrite (generate_cle_data_hit _ _ _ Hexists) in Hrun. by injection Hrun as <- <-.
  - rewrite (generate_cle_data_miss _ _ _ Hexists) in Hrun.
    apply path_exists_false in Hexists.
    destruct (extracted _) as [d|]; injection Hrun as <- <-; simpl; [|done].
    unfold write_json.
    rewrite lookup_insert_ne by (intros Hkey; rewrite Hkey in Hexists; congruence).
    by apply mkdir_p_same.
Qed.

(** X16.  [generate_cle_data] always returns, with the derived key or with
    nothing.  It returns the key exactly when the entry was already there or
    the extractor gave data that is present and not empty with return code
    0; the key it returns is in the file system afterwards, and when it
    returns nothing the file system is as before. *)
Theorem generate_cle_data_returns lib_path prefix st :
  let key := cache_key_of (cache_dir st) lib_path prefix in
  let res := (get_smeagle_data (fs st) lib_path (world st)).1 in
  ∃ r st',
    generate_cle_data lib_path prefix st = inr (r, st') ∧
    (r = Some key ∨ r = None) ∧
    (r = Some key ↔
     path_exists (fs st) key = true ∨
     ∃ d, data res = Some d ∧ truthy d = true ∧ return_code res = 0%Z) ∧
    (r = Some key → path_exists (fs st') key = true) ∧
    (r = None → fs st' = fs st).
Proof.
  intros key res. destruct (path_exists (fs st) key) eqn:Hexists.
  - rewrite (generate_cle_data_hit _ _ _ Hexists). fold key.
    exists (Some key), st. split_and!; [done|by left| |done..].
    split; [by left|done].
  - rewrite (generate_cle_data_miss _ _ _ Hexists). fold key res.
    destruct (extracted res) as [d|] eqn:Hd.
    + eexists (Some key), _. split_and!; [done|by left| | |done].
      * split; [|done]. intros _. right. exists d. by apply extracted_Some.
      * intros _. simpl. apply path_exists_true. unfold write_json.
        rewrite lookup_insert_eq. by eexists.
    + eexists None, _. split_and!; [done|by right| |done..].
      split; [done|]. intros [?|(d & Hdata)]; [done|].
      apply extracted_Some in Hdata. congruence.
Qed.

(** X17.  For a cache directory that is not the empty string, a prefix
    that does not begin with a separator, and a prefix and a library path
    without a [..] component, the derived key lies below the cache
    directory: it continues the directory and a separator by a name that
    does not step out of it, so that removing the directory removes the
    entry. *)
Theorem cache_key_within cache lib_path prefix (files : gmap string Node) :
  cache ≠ "" →
  String.prefix "/" prefix = false →
  ".." ∉ components prefix →
  ".." ∉ components lib_path →
  within cache (cache_key_of cache lib_path prefix) = true ∧
  rmtree cache files !! cache_key_of cache lib_path prefix = None.
Proof.
  intros Hcache Hprefix Hpc Hlc.
  assert (within cache (cache_key_of cache lib_path prefix) = true) as Hwithin.
  { assert (∀ name, String.prefix "/" name = false → ".." ∉ components name →
                    within cache (path_join cache name) = true) as Hjoin.
    { intros name Hname Hdots. unfold path_join, within. rewrite Hname.
      apply String.eqb_neq in Hcache. rewrite Hcache. simpl.
      destruct (ends_with_sep cache).
      - rewrite drop_prefix_app, bool_decide_false by done. apply orb_true_r.
      - rewrite <-append_assoc, drop_prefix_app, bool_decide_false by done.
        apply orb_true_r. }
    unfold cache_key_of. destruct (String.eqb prefix "") eqn:Hempty; apply Hjoin.
    - apply no_sep_head_app; [apply strip_sep_head|done].
    - intros Hin. by apply Hlc, json_name_components.
    - apply String.eqb_neq in Hempty. destruct prefix as [|c prefix]; [done|].
      rewrite prefix_sep_cons in Hprefix.
      change (String c prefix +:+ "-" +:+ strip_sep lib_path +:+ ".json")
        with (String c (prefix +:+ "-" +:+ strip_sep lib_path +:+ ".json")).
      by rewrite prefix_sep_cons.
    - intros Hin. by apply prefixed_name_components in Hin as [?|?]. }
  split; [done|]. by apply rmtree_within.
Qed.

(** X18.  The key depends on the library path only up to its leading and
    trailing separators: a path and the same path without them share one
    cache entry. *)
Theorem cache_key_strips cache lib_path prefix :
  cache_key_of cache (strip_sep lib_path) prefix = cache_key_of cache lib_path prefix.
Proof. unfold cache_key_of. by rewrite strip_sep_idem. Qed.

End smeagle_more.

Lemma pydict_set_elem_of_eq {V} (d : list (string * V)) k v :
  (k, v) ∈ PyDict.set d k v.
Proof. apply pydict_get_Some_elem_of, pydict_get_set_eq. Qed.

Lemma pydict_set_elem_of_ne {V} (d : list (string * V)) k v k' v' :
  (k', v') ∈ d → k' ≠ k → (k', v') ∈ PyDict.set d k v.
Proof.
  intros Hin Hne. induction d as [|[k0 v0] d IH]; simpl.
  - by apply elem_of_nil in Hin.
  - apply elem_of_cons in Hin as [[= <- <-]|Hin].
    + rewrite decide_False by done. left.
    + destruct (decide (k0 = k)); right; [done|by apply IH].
Qed.

Section smeagle_walk.
Context {T : Types} {L : Smeagle.Tools}.
Import Smeagle.

Lemma generate_cle_data_returned_exists lib_path prefix st key st' :
  generate_cle_data lib_path prefix st = inr (Some key, st') →
  is_Some (fs st' !! key).
Proof.
  destruct (path_exists (fs st) (cache_key_of (cache_dir st) lib_path prefix))
    eqn:Hexists.
  - rewrite (generate_cle_data_hit _ _ _ Hexists). intros [= <- <-].
    by apply path_exists_true.
  - rewrite (generate_cle_data_miss _ _ _ Hexists).
    destruct (extracted _) as [d|]; [|done]. intros [= <- <-]. simpl.
    unfold write_json. rewrite lookup_insert_eq. by eexists.
Qed.

Lemma found_body_returns acc item st acc' st' :
  found_body acc item st = inr (acc', st') → only_extracts st st'.
Proof.
  destruct (lib item.2) as [l|] eqn:Hl.
  - destruct (found_body_only_extracts acc item st) as (acc1 & st1 & -> & Hst1).
    { rewrite Hl. by eexists. }
    by intros [= <- <-].
  - destruct acc as [symbols deps], item as [symbol meta]. simpl in *.
    by rewrite Hl.
Qed.

Lemma found_loop_returns items acc st acc' st' :
  for_each found_body items acc st = inr (acc', st') → only_extracts st st'.
Proof.
  intros Hloop.
  eapply (for_each_preserves (λ _ st', only_extracts st st') found_body items);
    [|apply only_extracts_refl|exact Hloop].
  intros a b c d e _ Hk Hb. eapply only_extracts_trans; [exact Hk|].
  by eapply found_body_returns.
Qed.

Lemma walk_invariant_keeps items acc st st' :
  (∀ path, is_Some (fs st !! path) → is_Some (fs st' !! path)) →
  walk_invariant items acc st → walk_invariant items acc st'.
Proof.
  intros Hkeeps (Hnd & Hsub & Hcover & Hfs). split_and!; [done..|].
  intros k Hk. by apply Hkeeps, Hfs.
Qed.

Lemma found_body_walk items acc item st acc' st' :
  item ∈ items →
  walk_invariant items acc st →
  found_body acc item st = inr (acc', st') →
  walk_invariant items acc' st'.
Proof.
  intros Hitem Hinv Hbody.
  assert (∀ path, is_Some (fs st !! path) → is_Some (fs st' !! path)) as Hkeeps.
  { by destruct (found_body_returns _ _ _ _ _ Hbody) as ((_ & _ & Hfs) & _). }
  destruct acc as [symbols deps], item as [symbol meta]. simpl in Hbody.
  destruct (lib meta) as [l|]; [|done].
  destruct (is_system_path (realpath l)).
  { injection Hbody as <- <-. done. }
  apply bind_inr in Hbody as (r & st1 & Hgenerate & Hrest).
  destruct r as [cache_key|]; injection Hrest as <- <-;
    [|by eapply walk_invariant_keeps].
  apply generate_cle_data_returned_exists in Hgenerate.
  destruct Hinv as (Hnd & Hsub & Hcover & Hfs). simpl in *.
  assert (∃ s, deps_add deps cache_key symbol = PyDict.set deps cache_key (s ∪ {[symbol]})
               ∧ s ⊆ symbols
               ∧ ∀ s0, (cache_key, s0) ∈ deps → s0 = s) as (s & Hadd & Hs & Hold).
  { unfold deps_add. destruct (PyDict.get deps cache_key) as [s|] eqn:Hget.
    - exists s. split; [done|]. split.
      + eapply Hsub. by apply pydict_get_Some_elem_of.
      + intros s0 Hs0. apply (pydict_elem_of_get _ _ _ Hnd) in Hs0. congruence.
    - exists ∅. split; [by rewrite (left_id_L ∅ (∪))|]. split; [set_solver|].
      intros s0 Hs0. apply pydict_get_None in Hget. destruct Hget.
      apply list_elem_of_fmap. by exists (cache_key, s0). }
  rewrite Hadd. split_and!; simpl.
  - by apply pydict_set_NoDup.
  - intros k s0 Hin. apply pydict_set_elem_of in Hin as [[-> ->]|Hin].
    + set_solver.
    + specialize (Hsub k s0 Hin). set_solver.
  - intros x Hx. apply elem_of_union in Hx as [Hx|Hx].
    + destruct (Hcover x Hx) as (Hkey & k & s0 & Hin & Hxs). split; [done|].
      destruct (decide (k = cache_key)) as [->|Hne].
      * exists cache_key, (s ∪ {[symbol]}). split; [apply pydict_set_elem_of_eq|].
        rewrite (Hold s0 Hin) in Hxs. set_solver.
      * exists k, s0. split; [by apply pydict_set_elem_of_ne|done].
    + apply elem_of_singleton in Hx as ->. split.
      * apply list_elem_of_fmap. by exists (symbol, meta).
      * exists cache_key, (s ∪ {[symbol]}). split; [apply pydict_set_elem_of_eq|].
        set_solver.
  - intros k Hk. apply pydict_set_keys in Hk as [->|Hk]; [done|].
    by apply Hkeeps, Hfs.
Qed.

Lemma found_loop_walk items st acc' st' :
  for_each found_body items (∅, []) st = inr (acc', st') →
  walk_invariant items acc' st'.
Proof.
  intros Hloop.
  eapply (for_each_preserves (walk_invariant items) found_body items);
    [|
     |exact Hloop].
  - intros a b c d e Hin Hinv Hbody. by eapply found_body_walk.
  - split_and!; simpl.
    + apply NoDup_nil_2.
    + intros k s Hin. by apply elem_of_nil in Hin.
    + intros x Hx. by apply elem_of_empty in Hx.
    + intros k Hk. by apply elem_of_nil in Hk.
Qed.

(** What a call of [test_lib] that passes the gate and returns went
    through. *)
Lemma test_lib_compare_inv splice lib_path facts_path (m : SymbolMap) st st' :
  metadata splice !! lib_path = Some m →
  missing m = [] →
  test_lib splice lib_path facts_path st = inr ((), st') →
  ∃ symbols deps st2 st3,
    for_each found_body (found m) (∅, [])
      (set_stats (<[lib_path := ∅]> (stats st)) st) = inr ((symbols, deps), st2) ∧
    record_total lib_path (size symbols) st2 = inr ((), st3) ∧
    run_comparison facts_path symbols deps st3 = inr ((), st').
Proof.
  intros Hm Hmissing Hrun. unfold test_lib in Hrun.
  apply bind_inr in Hrun as (m' & st0 & Hget & Hrun).
  unfold metadata_get in Hget. rewrite Hm in Hget. injection Hget as <- <-.
  rewrite bool_decide_false in Hrun by (by intros []).
  apply bind_inr in Hrun as ([] & st1 & Hmodify & Hrun).
  injection Hmodify as <-.
  apply bind_inr in Hrun as ([symbols deps] & st2 & Hloop & Hrun).
  apply bind_inr in Hrun as ([] & st3 & Htotal & Hrun).
  by exists symbols, deps, st2, st3.
Qed.

Lemma run_comparison_inv facts_path symbols deps st st' :
  run_comparison facts_path symbols deps st = inr ((), st') →
  ∃ l res seconds,
    predictions st !! "smeagle" = Some l ∧
    predictions st' = <["smeagle" := l ++ [Compared res seconds]]> (predictions st) ∧
    trace st' = trace st ++
                [Compare facts_path deps.*1 (PyDict.set deps facts_path symbols)] ∧
    stats st' = stats st ∧
    ∀ path, is_Some (fs st !! path) → is_Some (fs st' !! path).
Proof.
  unfold run_comparison, open_w. simpl.
  destruct (can_open _ (fs st)); [|done]. simpl.
  destruct (time (world st)) as [t1 w1].
  destruct (compatible_test _ _ _ _ w1) as [[res text] w2].
  destruct (time w2) as [t2 w3].
  unfold append_prediction. simpl.
  destruct (predictions st !! "smeagle") as [l|]; [|done].
  intros [= <-]. exists l, res, (time_sub t2 t1). split_and!; [done..|].
  intros path Hpath. simpl. unfold write_text. by do 2 apply insert_keeps.
Qed.

(** X20.  When [test_lib] passes the gate and returns, it has called the
    comparator once, after extractor calls only, with these arguments: the
    dependency facts are distinct paths that exist in the cache; the entry
    of the main facts holds the matched symbols; every other entry holds
    some of them; every matched symbol is a key of the found map and belongs
    to the entry of a dependency; and the statistics of the library record
    their number. *)
Theorem comparator_arguments splice lib_path facts_path (m : SymbolMap) st st' :
  metadata splice !! lib_path = Some m →
  missing m = [] →
  test_lib splice lib_path facts_path st = inr ((), st') →
  ∃ events B_set deps symbols,
    trace st' = trace st ++ events ++ [Compare facts_path B_set deps] ∧
    Forall is_extract events ∧
    NoDup B_set ∧
    (∀ k, k ∈ B_set → is_Some (fs st' !! k)) ∧
    PyDict.get deps facts_path = Some symbols ∧
    (∀ k s, (k, s) ∈ deps → s ⊆ symbols) ∧
    (∀ x, x ∈ symbols →
          x ∈ (found m).*1 ∧ ∃ k s, k ∈ B_set ∧ (k, s) ∈ deps ∧ x ∈ s) ∧
    stats st' !! lib_path = Some {["total_matched_symbols" := size symbols]}.
Proof.
  intros Hm Hmissing Hrun.
  destruct (test_lib_compare_inv _ _ _ _ _ _ Hm Hmissing Hrun)
    as (symbols & deps0 & st2 & st3 & Hloop & Htotal & Hcompare).
  pose proof (found_loop_walk _ _ _ _ Hloop) as (Hnd & Hsub & Hcover & Hfs).
  pose proof (found_loop_returns _ _ _ _ _ Hloop)
    as (_ & Hpreds & Hstats & events & Hevents & Htrace).
  simpl in *.
  unfold record_total in Htotal. rewrite Hstats, lookup_insert_eq in Htotal.
  injection Htotal as <-.
  apply run_comparison_inv in Hcompare
    as (l & res & seconds & _ & _ & Htrace' & Hstats' & Hkeeps).
  simpl in *.
  exists events, deps0.*1, (PyDict.set deps0 facts_path symbols), symbols.
  split_and!.
  - by rewrite Htrace', Htrace, <-(assoc_L (++)).
  - done.
  - done.
  - intros k Hk. by apply Hkeeps, Hfs.
  - apply pydict_get_set_eq.
  - intros k s Hin. apply pydict_set_elem_of in Hin as [[-> ->]|Hin]; [done|].
    by eapply Hsub.
  - intros x Hx. destruct (Hcover x Hx) as (Hkey & k & s & Hin & Hxs).
    split; [done|]. destruct (decide (k = facts_path)) as [->|Hne].
    + exists facts_path, symbols. split_and!; [|apply pydict_set_elem_of_eq|done].
      apply list_elem_of_fmap. by exists (facts_path, s).
    + exists k, s. split_and!; [|by apply pydict_set_elem_of_ne|done].
      apply list_elem_of_fmap. by exists (k, s).
  - rewrite Hstats', lookup_insert_eq. by rewrite insert_empty.
Qed.

End smeagle_walk.

Section smeagle_run.
Context {T : Types} {L : Smeagle.Tools}.
Import Smeagle.

Lemma system_loop_skips (items : list (string * FoundMeta)) acc st :
  Forall (λ sx, ∃ l, lib sx.2 = Some l ∧ is_system_path (realpath l) = true) items →
  for_each found_body items acc st = inr (acc, st).
Proof.
  induction 1 as [|[symbol meta] items (l & Hl & Hsystem) _ IH]; simpl; [done|].
  unfold mbind, M_bind. destruct acc as [symbols deps]. simpl in *.
  by rewrite Hl, Hsystem.
Qed.

(** X19.  When every symbol of a library without missing symbols is
    resolved by a system library (a path that begins with /usr or /lib), no
    facts are generated.  Where the [.asp] file beside the facts can be
    opened for writing, the comparator is called at once, with no dependency
    and an empty set of symbols for the main facts, and the statistics
    record zero matched symbols. *)
Theorem system_dependencies_skipped splice lib_path facts_path (m : SymbolMap) st l :
  metadata splice !! lib_path = Some m →
  predictions st !! "smeagle" = Some l →
  can_open (replace_json facts_path) (fs st) = true →
  missing m = [] →
  Forall (λ sx : string * FoundMeta,
            ∃ li, lib sx.2 = Some li ∧ is_system_path (realpath li) = true)
         (found m) →
  ∃ st' res seconds,
    test_lib splice lib_path facts_path st = inr ((), st') ∧
    trace st' = trace st ++ [Compare facts_path [] [(facts_path, ∅)]] ∧
    predictions st' !! "smeagle" = Some (l ++ [Compared res seconds]) ∧
    stats st' !! lib_path = Some {["total_matched_symbols" := 0]}.
Proof.
  intros Hm Hbucket Hopen Hmissing Hsystem.
  unfold test_lib, mbind, M_bind, metadata_get.
  rewrite Hm. simpl. rewrite bool_decide_false by (by intros []).
  unfold modify. rewrite (system_loop_skips _ _ _ Hsystem). simpl.
  unfold record_total. simpl. rewrite lookup_insert_eq.
  unfold run_comparison, open_w. simpl. rewrite Hopen. simpl.
  destruct (time (world st)) as [t1 w1].
  destruct (compatible_test _ _ _ _ w1) as [[res text] w2].
  destruct (time w2) as [t2 w3].
  unfold append_prediction. simpl. rewrite Hbucket.
  eexists _, res, (time_sub t2 t1). split; [reflexivity|]. simpl.
  split_and!; [done|by rewrite lookup_insert_eq|].
  rewrite lookup_insert_eq, insert_empty. reflexivity.
Qed.

(** A call of [test_lib] that returns has appended one record to the
    bucket and left the other buckets alone. *)
Lemma test_lib_appends_one splice lib_path facts_path st st' :
  test_lib splice lib_path facts_path st = inr ((), st') →
  ∃ l r, predictions st !! "smeagle" = Some l ∧
         predictions st' = <["smeagle" := l ++ [r]]> (predictions st).
Proof.
  intros Hrun.
  destruct (metadata splice !! lib_path) as [m|] eqn:Hm.
  2:{ unfold test_lib, mbind, M_bind, metadata_get in Hrun. by rewrite Hm in Hrun. }
  destruct (decide (missing m = [])) as [Hmissing|Hmissing].
  - destruct (test_lib_compare_inv _ _ _ _ _ _ Hm Hmissing Hrun)
      as (symbols & deps & st2 & st3 & Hloop & Htotal & Hcompare).
    apply found_loop_returns in Hloop as (_ & Hpreds & _).
    unfold record_total in Htotal.
    destruct (stats st2 !! lib_path); [|done]. injection Htotal as <-.
    apply run_comparison_inv in Hcompare
      as (l & res & seconds & Hl & Hpreds' & _).
    simpl in *. rewrite Hpreds in Hl, Hpreds'. by exists l, (Compared res seconds).
  - unfold test_lib, mbind, M_bind, metadata_get in Hrun. rewrite Hm in Hrun.
    simpl in Hrun. rewrite bool_decide_true in Hrun by done.
    unfold append_prediction in Hrun.
    destruct (predictions st !! "smeagle") as [l|]; [|done].
    injection Hrun as <-. by eexists l, _.
Qed.

Lemma test_loop_bucket splice (table : list (string * string)) :
  ∀ st st' l,
    predictions st !! "smeagle" = Some l →
    for_each (λ _ '(lib_path, facts_path), test_lib splice lib_path facts_path)
      table () st = inr ((), st') →
    ∃ l', predictions st' !! "smeagle" = Some l' ∧
          length l' = length l + length table ∧
          ∀ k, k ≠ "smeagle" → predictions st' !! k = predictions st !! k.
Proof.
  induction table as [|[lib_path facts_path] table IH]; intros st st' l Hl Hrun.
  - injection Hrun as <-. exists l. split; [done|]. split; [simpl; lia|done].
  - simpl in Hrun. apply bind_inr in Hrun as ([] & st1 & Hone & Hrest).
    apply test_lib_appends_one in Hone as (l0 & r & Hl0 & Hpreds).
    rewrite Hl in Hl0. injection Hl0 as <-.
    destruct (IH st1 st' (l ++ [r])) as (l' & Hl' & Hlen & Hframe); [|done|].
    { by rewrite Hpreds, lookup_insert_eq. }
    exists l'. split; [done|]. split.
    + rewrite Hlen, length_app. simpl. lia.
    + intros k Hk. rewrite (Hframe k Hk), Hpreds. by rewrite lookup_insert_ne.
Qed.

Lemma spliced_loop_table libs :
  ∀ table st table' st',
    for_each spliced_body libs table st = inr (table', st') →
    length table' ≤ length table + length libs ∧ predictions st' = predictions st.
Proof.
  induction libs as [|lib_path libs IH]; intros table st table' st' Hrun.
  - injection Hrun as <- <-. split; [simpl; lia|done].
  - simpl in Hrun. apply bind_inr in Hrun as (table1 & st1 & Hone & Hrest).
    apply IH in Hrest as [Hlen Hpreds].
    unfold spliced_body, mbind, M_bind in Hone.
    destruct (generate_cle_data_only_extracts lib_path "smeagle" st)
      as (r & st0 & Hgenerate & (_ & Hpreds0 & _)).
    rewrite Hgenerate in Hone.
    destruct r as [cache_key|]; injection Hone as <- <-.
    + pose proof (pydict_set_length table lib_path cache_key).
      split; [simpl; lia|congruence].
    + split; [simpl; lia|congruence].
Qed.

(** X21.  Without spliced libraries [predict] returns at once and changes
    nothing.  Otherwise, when it completes, the "smeagle" bucket has been
    reset and holds at most one record per spliced library, and every other
    bucket is as before. *)
Theorem smeagle_bucket splice st :
  (spliced splice = [] → predict splice st = inr ((), st)) ∧
  (spliced splice ≠ [] →
   ∀ st', predict splice st = inr ((), st') →
     ∃ l, predictions st' !! "smeagle" = Some l ∧
          length l ≤ length (spliced splice) ∧
          ∀ k, k ≠ "smeagle" → predictions st' !! k = predictions st !! k).
Proof.
  unfold predict. split; [by intros ->|].
  intros Hspliced st' Hrun.
  destruct (spliced splice) as [|lib0 libs] eqn:Hlibs; [done|]. clear Hspliced.
  apply bind_inr in Hrun as (cleanup & st1 & Hsetup & Hrun).
  apply bind_inr in Hrun as ([] & st2 & Hmodify & Hrun).
  injection Hmodify as <-.
  apply bind_inr in Hrun as (table & st3 & Hgenerate & Hrun).
  apply bind_inr in Hrun as ([] & st4 & Htest & Hcleanup).
  apply spliced_loop_table in Hgenerate as [Hlen Hpreds3]. simpl in *.
  destruct (test_loop_bucket splice table st3 st4 [])
    as (l & Hl & Hlen' & Hframe); [|done|].
  { by rewrite Hpreds3, lookup_insert_eq. }
  assert (predictions st' = predictions st4) as ->.
  { unfold cleanup_cache in Hcleanup.
    destruct (cleanup && path_exists (fs st4) (cache_dir st4));
      by injection Hcleanup as <-. }
  assert (predictions st1 = predictions st) as Hpreds1.
  { unfold setup_cache in Hsetup.
    destruct (path_exists _ _), (String.eqb _ "") in Hsetup; simpl in Hsetup;
      try destruct (tempdir _ _) as [[tmp fs'] w'];
      by injection Hsetup as <- <-. }
  exists l. split; [done|]. split; [simpl in *; lia|].
  intros k Hk. rewrite (Hframe k Hk), Hpreds3, lookup_insert_ne by done.
  by rewrite Hpreds1.
Qed.

End smeagle_run.

Section smeagle_more_examples.
Import Example Scenario.

Lemma generate_cle_data_immutable_witness :
  ∃ r st',
    Smeagle.generate_cle_data "/opt/lib/liby.so.3" "smeagle" cached_state
    = inr (r, st') ∧
    Smeagle.fs st' !! "/var/cache/spliced/smeagle-opt/lib/libz.so.1.json"
    = Some (Smeagle.JsonFile "facts of /opt/lib/libz.so.1").
Proof.
  destruct (Smeagle.generate_cle_data "/opt/lib/liby.so.3" "smeagle" cached_state)
    as [e|[r st']] eqn:Hrun; [by vm_compute in Hrun|].
  exists r, st'. split; [done|].
  apply (generate_cle_data_immutable "/opt/lib/liby.so.3" "smeagle" cached_state r st');
    [by vm_compute|exact Hrun|by vm_compute..].
Defined.

Lemma cache_key_within_witness :
  Smeagle.within "/tmp/tmp0"
    (Smeagle.cache_key_of "/tmp/tmp0" "/new/lib/libx.so.2" "smeagle") = true.
Proof.
  apply (cache_key_within (T := types) "/tmp/tmp0" "/new/lib/libx.so.2" "smeagle" ∅);
    [done|done|by vm_compute; set_solver..].
Defined.

Lemma system_dependencies_skipped_witness :
  ∃ st' res seconds,
    Smeagle.test_lib system_only "/new/lib/libx.so.2"
      "/var/cache/spliced/smeagle-new/lib/libx.so.2.json" facts_ready
    = inr ((), st') ∧
    Smeagle.trace st'
    = [Smeagle.Compare "/var/cache/spliced/smeagle-new/lib/libx.so.2.json" []
         [("/var/cache/spliced/smeagle-new/lib/libx.so.2.json", ∅)]] ∧
    Smeagle.predictions st' !! "smeagle" = Some [Smeagle.Compared res seconds].
Proof.
  destruct (system_dependencies_skipped system_only "/new/lib/libx.so.2"
              "/var/cache/spliced/smeagle-new/lib/libx.so.2.json"
              (symbol_map [resolved "printf" "/usr/lib/libc.so.6";
                           resolved "dlopen" "/lib/libdl.so.2"] [] [])
              facts_ready [])
    as (st' & res & seconds & Hrun & Htrace & Hbucket & _); [by vm_compute..| |].
  { repeat apply Forall_cons_2; [| |apply Forall_nil_2]; by eexists. }
  by exists st', res, seconds.
Defined.

Lemma comparator_arguments_witness :
  ∃ st' events B_set deps,
    Smeagle.test_lib one_dependency "/new/lib/libx.so.2"
      "/var/cache/spliced/smeagle-new/lib/libx.so.2.json" facts_ready
    = inr ((), st') ∧
    Smeagle.trace st'
    = Smeagle.trace facts_ready ++ events ++
      [Smeagle.Compare "/var/cache/spliced/smeagle-new/lib/libx.so.2.json" B_set deps] ∧
    NoDup B_set ∧
    ∀ k, k ∈ B_set → is_Some (Smeagle.fs st' !! k).
Proof.
  destruct (Smeagle.test_lib one_dependency "/new/lib/libx.so.2"
              "/var/cache/spliced/smeagle-new/lib/libx.so.2.json" facts_ready)
    as [e|[[] st']] eqn:Hrun; [by vm_compute in Hrun|].
  destruct (comparator_arguments one_dependency "/new/lib/libx.so.2"
              "/var/cache/spliced/smeagle-new/lib/libx.so.2.json"
              (symbol_map [resolved "foo" "/opt/lib/libz.so.1"] [] ["bar"])
              facts_ready st')
    as (events & B_set & deps & symbols & Htrace & _ & Hnd & Hfs & _);
    [by vm_compute|done|done|].
  by exists st', events, B_set, deps.
Defined.

End smeagle_more_examples.
